(** * v8worker: the Worker lifecycle and message bridge

    A shallow embedding of [binding.cc] (the C++ side: one [worker_s] per V8
    isolate, the script-global bindings and the host entry points) and of
    [worker.go] (the Go side: the package-level counters, the callback
    registry and the [Worker] methods).

    V8 itself is an external collaborator.  It appears here as an interface,
    [Engine], whose operations are the API calls the source makes; what a
    script does when it runs is given as a tree of calls to the reserved
    bindings ([$recv], [$recvSync], [$send], [$sendSync]). *)

From Stdlib Require Import ZArith Lia Ascii String.
From stdpp Require Import base option list gmap strings pretty.

Local Open Scope Z_scope.

(** ** Strings as the code has them

    A Go [string] and a [std::string] are byte sequences; a [char*] is read up
    to its first NUL byte. *)

Definition NUL : ascii := Ascii.zero.

(** What a reader of a NUL-terminated buffer sees of the bytes [s] stored in
    it: [strlen], [std::string::append] of a C string, [String::NewFromUtf8]
    with no length and [C.GoString] all stop at the first NUL. *)
Fixpoint strz (s : string) : string :=
  match s with
  | EmptyString => EmptyString
  | String c r => if Ascii.eqb c NUL then EmptyString else String c (strz r)
  end.

(** [C.CString]: a fresh buffer holding the bytes of the Go string followed
    by a terminator.  The buffer is represented by the bytes copied. *)
Definition C_CString (s : string) : string := s.

(** [C.GoString]: the bytes up to the terminator. *)
Definition C_GoString (p : string) : string := strz p.

Definition nl : string := String "010" EmptyString.

(** [out.append(p)] for a C string [p]. *)
Definition append_cstr (out p : string) : string := out +:+ strz p.

(** A [for] loop that appends [piece] once per iteration, [n] iterations. *)
Fixpoint append_times (n : nat) (piece out : string) : string :=
  match n with
  | O => out
  | S n' => append_times n' piece (append_cstr out piece)
  end.

(** ** Machine integers *)

(** Go's [int] (64 bits on the platforms cgo and V8 share): [++] wraps. *)
Definition wrap_int (z : Z) : Z := (z + 2 ^ 63) mod 2 ^ 64 - 2 ^ 63.

(** The conversion [C.int(id)]: truncation to 32 bits, two's complement. *)
Definition C_int (z : Z) : Z := (z + 2 ^ 31) mod 2 ^ 32 - 2 ^ 31.

Definition in_c_int (z : Z) : Prop := - 2 ^ 31 <= z < 2 ^ 31.

(** [strconv.Itoa] and [printf]'s [%i]: decimal digits, a leading [-] for
    negatives. *)
Definition Itoa (z : Z) : string := pretty z.

(** [snprintf(scratch, scratchSize, "%i", n)]: at most [scratchSize - 1]
    characters are stored. *)
Fixpoint take_str (n : nat) (s : string) : string :=
  match n, s with
  | S n', String c r => String c (take_str n' r)
  | _, _ => EmptyString
  end.

Definition scratchSize : nat := 20.

Definition snprintf_i (n : Z) : string := take_str (scratchSize - 1) (Itoa n).

(** ** How a call ends

    A call either returns, brings the process down (a failed [assert], a Go
    panic, a dereference of an empty handle, a use of released storage), or
    never returns. *)

Inductive Failure :=
| AssertFailed (what : string)
| NilPointerDereference
| NilFuncCall
| EmptyHandleDereference
| GoPanic (what : string)
| UseAfterFree.

Inductive Outcome (A : Type) :=
| Ok (a : A)
| Crash (why : Failure)
| Hang.
Arguments Ok {A} a.
Arguments Crash {A} why.
Arguments Hang {A}.

Definition obind {A B} (m : Outcome A) (f : A -> Outcome B) : Outcome B :=
  match m with
  | Ok a => f a
  | Crash why => Crash why
  | Hang => Hang
  end.

Definition omap {A B} (f : A -> B) (m : Outcome A) : Outcome B :=
  obind m (fun a => Ok (f a)).

(** How a call of a Go closure ends: it returns, it panics, or it never
    returns. *)
Inductive Ending (A : Type) :=
| Returns (a : A)
| Panics (what : string)
| Blocks.
Arguments Returns {A} a.
Arguments Panics {A} what.
Arguments Blocks {A}.

Definition ended {A} (e : Ending A) : Outcome A :=
  match e with
  | Returns a => Ok a
  | Panics what => Crash (GoPanic what)
  | Blocks => Hang
  end.

Notation "'let*' x := m 'in' k" := (obind m (fun x => k))
  (at level 10, x name, m at level 100, k at level 200, only parsing).
Notation "'let*' ' p := m 'in' k" := (obind m (fun x => let 'p := x in k))
  (at level 10, p pattern, m at level 100, k at level 200, only parsing).

(** ** Exceptions as the translator reads them *)

(** [String::Utf8Value]: [*value] is [NULL] when the conversion failed,
    otherwise the UTF-8 bytes; [length()] is the byte count. *)
Definition Utf8Value := option string.

Definition utf8_length (v : Utf8Value) : nat :=
  match v with
  | Some s => String.length s
  | None => O
  end.

(** Extracts a C string from a V8 Utf8Value. *)
Definition ToCString (value : Utf8Value) : string :=
  match value with
  | Some s => s
  | None => "<string conversion failed>"
  end.

(** [v8::Message], through the accessors [ExceptionString] uses. *)
Record Message := {
  ResourceName : Utf8Value;     (* GetScriptOrigin().ResourceName() *)
  GetLineNumber : Z;
  GetSourceLine : Utf8Value;
  GetStartColumn : Z;
  GetEndColumn : Z
}.

(** A [v8::TryCatch] that has caught. *)
Record TryCatch := {
  Exception : Utf8Value;
  GetMessage : option Message;  (* [None]: [Message().IsEmpty()] *)
  StackTrace : Utf8Value
}.

(** Exception details will be appended to the first argument. *)
Definition ExceptionString (try_catch : TryCatch) : string :=
  let out := EmptyString in
  let exception_string := ToCString (Exception try_catch) in
  match GetMessage try_catch with
  | None =>
      let out := append_cstr out exception_string in
      append_cstr out nl
  | Some message =>
      let filename_string := ToCString (ResourceName message) in
      let linenum := GetLineNumber message in
      let scratch := snprintf_i linenum in
      let out := append_cstr out filename_string in
      let out := append_cstr out ":" in
      let out := append_cstr out scratch in
      let out := append_cstr out nl in
      let sourceline_string := ToCString (GetSourceLine message) in
      let out := append_cstr out sourceline_string in
      let out := append_cstr out nl in
      let start := GetStartColumn message in
      let out := append_times (Z.to_nat start) " " out in
      let end_ := GetEndColumn message in
      let out := append_times (Z.to_nat (end_ - start)) "^" out in
      let out := append_cstr out nl in
      if decide (0 < utf8_length (StackTrace try_catch))%nat then
        let stack_trace_string := ToCString (StackTrace try_catch) in
        let out := append_cstr out stack_trace_string in
        append_cstr out nl
      else
        let out := append_cstr out exception_string in
        append_cstr out nl
  end.

(** ** The engine, as the bridge sees it *)

Section EngineData.
Variables JSString Function Heap : Type.

(** A [v8::Value], as far as [IsString] and [IsFunction] tell values apart. *)
Inductive Value :=
| VUndefined
| VBoolean (b : bool)
| VNumber (n : Z)
| VString (s : JSString)
| VFunction (f : Function)
| VObject.

Definition IsString (v : Value) : bool :=
  match v with VString _ => true | _ => false end.

Definition IsFunction (v : Value) : bool :=
  match v with VFunction _ => true | _ => false end.

(** How [Script::Run] and [Function::Call] come back: with a value, or with
    an empty handle and the exception in the enclosing [TryCatch]. *)
Inductive Completion :=
| Returned (v : Value)
| Thrown (try_catch : TryCatch).

(** What running script code amounts to between entering the engine and
    leaving it: calls to the reserved bindings with their first argument
    ([undefined] when none was passed), then a completion and the heap it
    leaves behind.  [$print] only writes to standard output and is left
    out. *)
Inductive Exec :=
| Done (h : Heap) (c : Completion)
| Diverge
| CallRecv (v : Value) (k : Exec)
| CallRecvSync (v : Value) (k : Exec)
| CallSend (v : Value) (k : Exec)
| CallSendSync (v : Value) (k : JSString -> Exec).

(** [v8::ScriptOrigin], as [worker_load] builds it. *)
Record V8ScriptOrigin := {
  origin_name : JSString;
  origin_line_offset : Z;
  origin_column_offset : Z;
  origin_is_shared_cross_origin : bool;
  origin_script_id : Z;
  origin_is_embedder_debug_script : bool;
  origin_source_map_url : JSString;
  origin_is_opaque : bool
}.
End EngineData.

Arguments VUndefined {JSString Function}.
Arguments VBoolean {JSString Function} b.
Arguments VNumber {JSString Function} n.
Arguments VString {JSString Function} s.
Arguments VFunction {JSString Function} f.
Arguments VObject {JSString Function}.
Arguments IsString {JSString Function} v.
Arguments IsFunction {JSString Function} v.
Arguments Returned {JSString Function} v.
Arguments Thrown {JSString Function} try_catch.
Arguments Done {JSString Function Heap} h c.
Arguments Diverge {JSString Function Heap}.
Arguments CallRecv {JSString Function Heap} v k.
Arguments CallRecvSync {JSString Function Heap} v k.
Arguments CallSend {JSString Function Heap} v k.
Arguments CallSendSync {JSString Function Heap} v k.

(** The calls into V8 that [binding.cc] makes. *)
Class Engine := {
  JSString : Type;                      (* contents of a v8::String *)
  Function : Type;                      (* a v8::Function *)
  Script : Type;                        (* a compiled v8::Script *)
  Heap : Type;                          (* an isolate with its context *)
  utf8_decode : string -> JSString;     (* String::NewFromUtf8 on these bytes *)
  utf8_encode : JSString -> string;     (* String::Utf8Value of a string *)
  Context_New : Heap;                   (* Isolate::New and Context::New *)
  Script_Compile :
    Heap -> JSString -> V8ScriptOrigin JSString -> TryCatch + Script;
  Script_Run : Script -> Heap -> Exec JSString Function Heap;
  Function_Call : Function -> JSString -> Heap -> Exec JSString Function Heap
}.

Section Bridge.
Context {engine : Engine}.

(** The host's own state, which the Go callbacks read and write. *)
Variable U : Type.

(** What [C.GoString] finds behind a pointer into the storage of a
    [std::string] that has been destroyed, given the bytes it held. *)
Variable read_released : string -> string.

Abbreviation value := (Value JSString Function).
Abbreviation completion := (Completion JSString Function).
Abbreviation exec_tree := (Exec JSString Function Heap).

(** [String::NewFromUtf8(isolate, p)] for a C string [p]. *)
Definition NewFromUtf8 (p : string) : JSString := utf8_decode (strz p).

(** Entries into the engine, in the order made: a history kept beside the
    isolate so that what ran, and how often, can be stated. *)
Inductive Entry :=
| EnterCompile (source : JSString) (origin : V8ScriptOrigin JSString)
| EnterRun (script : Script)
| EnterCall (f : Function) (arg : JSString).

Record Isolate := {
  heap : Heap;
  entered : list Entry
}.

(** [struct worker_s].  The persistent [context] lives in the isolate's heap;
    an empty [Persistent<Function>] is [None].  [disposed] is no field of
    the struct: it records that [worker_dispose] has disposed the isolate
    and deleted the struct, after which the storage is no longer the
    worker's.  Only [worker_dispose] consults it. *)
Record worker := {
  worker_id : Z;
  isolate : Isolate;
  last_exception : string;
  recv : option Function;
  recv_sync_handler : option Function;
  disposed : bool
}.

Definition set_last_exception (s : string) (w : worker) : worker :=
  {| worker_id := worker_id w; isolate := isolate w; last_exception := s;
     recv := recv w; recv_sync_handler := recv_sync_handler w;
     disposed := disposed w |}.

Definition set_recv (f : option Function) (w : worker) : worker :=
  {| worker_id := worker_id w; isolate := isolate w;
     last_exception := last_exception w;
     recv := f; recv_sync_handler := recv_sync_handler w;
     disposed := disposed w |}.

Definition set_recv_sync_handler (f : option Function) (w : worker) : worker :=
  {| worker_id := worker_id w; isolate := isolate w;
     last_exception := last_exception w;
     recv := recv w; recv_sync_handler := f; disposed := disposed w |}.

Definition set_isolate (i : Isolate) (w : worker) : worker :=
  {| worker_id := worker_id w; isolate := i;
     last_exception := last_exception w;
     recv := recv w; recv_sync_handler := recv_sync_handler w;
     disposed := disposed w |}.

Definition set_disposed (b : bool) (w : worker) : worker :=
  {| worker_id := worker_id w; isolate := isolate w;
     last_exception := last_exception w;
     recv := recv w; recv_sync_handler := recv_sync_handler w;
     disposed := b |}.

Definition set_heap (h : Heap) (w : worker) : worker :=
  set_isolate {| heap := h; entered := entered (isolate w) |} w.

Definition enter (e : Entry) (w : worker) : worker :=
  set_isolate {| heap := heap (isolate w);
                 entered := entered (isolate w) ++ [e] |} w.

(** *** worker.go: package state *)

(** To receive messages from javascript; a nil func is [None].  A callback
    is a closure of the host program: it reads and writes the host's state,
    and it may panic or block.  What a callback does by calling back into
    this package ([New], a load or a send from inside the callback) is not
    part of this type. *)
Definition ReceiveMessageCallback := string -> U -> Ending U.

(** To send a message from javascript and synchronously return a string. *)
Definition ReceiveSyncMessageCallback := string -> U -> Ending (string * U).

(** This is a wrapper for worker callbacks *)
Record callbacks := {
  cb : option ReceiveMessageCallback;
  syncCB : option ReceiveSyncMessageCallback
}.

Record GoState := {
  scriptSequence : Z;
  workerIdSequence : Z;
  callbacksMap : gmap Z callbacks;
  host : U
}.

Definition set_scriptSequence (n : Z) (g : GoState) : GoState :=
  {| scriptSequence := n; workerIdSequence := workerIdSequence g;
     callbacksMap := callbacksMap g; host := host g |}.

Definition set_workerIdSequence (n : Z) (g : GoState) : GoState :=
  {| scriptSequence := scriptSequence g; workerIdSequence := n;
     callbacksMap := callbacksMap g; host := host g |}.

Definition set_callbacksMap (m : gmap Z callbacks) (g : GoState) : GoState :=
  {| scriptSequence := scriptSequence g;
     workerIdSequence := workerIdSequence g;
     callbacksMap := m; host := host g |}.

Definition set_host (u : U) (g : GoState) : GoState :=
  {| scriptSequence := scriptSequence g;
     workerIdSequence := workerIdSequence g;
     callbacksMap := callbacksMap g; host := u |}.

(** The state of a process that has just started. *)
Definition process_start (u : U) : GoState :=
  {| scriptSequence := 0; workerIdSequence := 0;
     callbacksMap := ∅; host := u |}.

(** [callbacksMap[workerId]] yields a nil pointer for a missing key;
    selecting a field through it panics, and so does calling a nil func. *)
Definition recvCb (msg_s : string) (workerId : Z) (g : GoState)
  : Outcome GoState :=
  let msg := C_GoString msg_s in
  match callbacksMap g !! workerId with
  | None => Crash NilPointerDereference
  | Some c =>
      match cb c with
      | None => Crash NilFuncCall
      | Some fn =>
          let* u := ended (fn msg (host g)) in
          Ok (set_host u g)
      end
  end.

Definition recvSyncCb (msg_s : string) (workerId : Z) (g : GoState)
  : Outcome (string * GoState) :=
  let msg := C_GoString msg_s in
  match callbacksMap g !! workerId with
  | None => Crash NilPointerDereference
  | Some c =>
      match syncCB c with
      | None => Crash NilFuncCall
      | Some fn =>
          let* '(res, u) := ended (fn msg (host g)) in
          Ok (C_CString res, set_host u g)
      end
  end.

(** *** binding.cc: the reserved bindings *)

(** [binding.cc] declares [recvCb] and [recvSyncCb] with a C [int] as second
    parameter, while the functions Go exports take a Go [int], 64 bits wide.
    The caller loads the 32-bit [w->id] into the argument register, which
    clears the register's upper half, and Go reads the whole register: a
    negative [int] arrives as that number plus 2^32. *)
Definition as_GoInt (i : Z) : Z := i mod 2 ^ 32.

(** sets the recv callback. *)
Definition Recv (v : value) (w : worker) : Outcome worker :=
  match v with
  | VFunction func => Ok (set_recv (Some func) w)
  | _ => Crash (AssertFailed "v->IsFunction()")
  end.

Definition RecvSync (v : value) (w : worker) : Outcome worker :=
  match v with
  | VFunction func => Ok (set_recv_sync_handler (Some func) w)
  | _ => Crash (AssertFailed "v->IsFunction()")
  end.

(** Called from javascript. Must route message to golang. *)
Definition Send (v : value) (w : worker) (g : GoState) : Outcome GoState :=
  match v with
  | VString str =>
      let msg := append_cstr EmptyString (utf8_encode str) in
      recvCb msg (as_GoInt (worker_id w)) g
  | _ => Crash (AssertFailed "v->IsString()")
  end.

(** Called from javascript using $request.  Must route message (string) to
    golang and send back message (string) as return value. *)
Definition SendSync (v : value) (w : worker) (g : GoState)
  : Outcome (JSString * GoState) :=
  match v with
  | VString str =>
      let msg := append_cstr EmptyString (utf8_encode str) in
      let* '(returnMsg, g) := recvSyncCb msg (as_GoInt (worker_id w)) g in
      let returnV := NewFromUtf8 returnMsg in
      Ok (returnV, g)
  | _ => Crash (AssertFailed "v->IsString()")
  end.

(** Script code running on worker [w]: every binding call goes through the
    callbacks above. *)
Fixpoint exec (e : exec_tree) (w : worker) (g : GoState)
  : Outcome (completion * worker * GoState) :=
  match e with
  | Done h c => Ok (c, set_heap h w, g)
  | Diverge => Hang
  | CallRecv v k => let* w := Recv v w in exec k w g
  | CallRecvSync v k => let* w := RecvSync v w in exec k w g
  | CallSend v k => let* g := Send v w g in exec k w g
  | CallSendSync v k => let* '(ret, g) := SendSync v w g in exec (k ret) w g
  end.

(** *** binding.cc: the entry points called from Go *)

Definition worker_last_exception (w : worker) : string := last_exception w.

(** Returns nonzero on error; the error is then in [last_exception].  An
    empty handle from [Script::Compile] or [Run] comes with a [TryCatch] that
    has caught, which is what the two [assert]s say: the cases are [inl] and
    [Thrown]. *)
Definition worker_load (w : worker) (source_s name_s : string)
    (line_offset_s column_offset_s : Z) (is_shared_cross_origin_s : bool)
    (script_id_s : Z) (is_embedder_debug_script_s : bool)
    (source_map_url_s : string) (is_opaque_s : bool) (g : GoState)
  : Outcome (Z * worker * GoState) :=
  let name := NewFromUtf8 name_s in
  let source := NewFromUtf8 source_s in
  let source_map_url := NewFromUtf8 source_map_url_s in
  let origin :=
    {| origin_name := name;
       origin_line_offset := line_offset_s;
       origin_column_offset := column_offset_s;
       origin_is_shared_cross_origin := is_shared_cross_origin_s;
       origin_script_id := script_id_s;
       origin_is_embedder_debug_script := is_embedder_debug_script_s;
       origin_source_map_url := source_map_url;
       origin_is_opaque := is_opaque_s |} in
  let w := enter (EnterCompile source origin) w in
  match Script_Compile (heap (isolate w)) source origin with
  | inl try_catch =>
      Ok (1, set_last_exception (ExceptionString try_catch) w, g)
  | inr script =>
      let w := enter (EnterRun script) w in
      let* '(result, w, g) := exec (Script_Run script (heap (isolate w))) w g in
      match result with
      | Thrown try_catch =>
          Ok (2, set_last_exception (ExceptionString try_catch) w, g)
      | Returned _ => Ok (0, w, g)
      end
  end.

(** Called from golang. Must route message to javascript lang.
    non-zero return value indicates error. check worker_last_exception(). *)
Definition worker_send (w : worker) (msg : string) (g : GoState)
  : Outcome (Z * worker * GoState) :=
  match recv w with
  | None => Ok (1, set_last_exception "$recv not called" w, g)
  | Some recv =>
      let arg := NewFromUtf8 msg in
      let w := enter (EnterCall recv arg) w in
      let* '(result, w, g) :=
        exec (Function_Call recv arg (heap (isolate w))) w g in
      match result with
      | Thrown try_catch =>
          Ok (2, set_last_exception (ExceptionString try_catch) w, g)
      | Returned _ => Ok (0, w, g)
      end
  end.

(** Where a returned C string points: at a string literal, or into the
    buffer of a local [std::string] whose destructor ran on return (shown
    with the bytes it held). *)
Inductive c_str :=
| Literal (s : string)
| Released (s : string).

(** Called from golang. Must route message to javascript lang.
    It will call the $recv_sync_handler callback function and return its
    string value.  No [TryCatch] is in scope here: when the handler throws,
    [Call] yields an empty handle and [response_value->IsString()]
    dereferences it. *)
Definition worker_send_sync (w : worker) (msg : string) (g : GoState)
  : Outcome (c_str * worker * GoState) :=
  match recv_sync_handler w with
  | None => Ok (Literal "err: $recvSync not called", w, g)
  | Some recv_sync_handler =>
      let arg := NewFromUtf8 msg in
      let w := enter (EnterCall recv_sync_handler arg) w in
      let* '(result, w, g) :=
        exec (Function_Call recv_sync_handler arg (heap (isolate w))) w g in
      match result with
      | Thrown _ => Crash EmptyHandleDereference
      | Returned response_value =>
          match response_value with
          | VString response =>
              let out := append_cstr EmptyString (utf8_encode response) in
              Ok (Released out, w, g)
          | _ => Ok (Literal "err: non-string return value", w, g)
          end
      end
  end.

Definition worker_new (worker_id : Z) : worker :=
  {| worker_id := worker_id;
     isolate := {| heap := Context_New; entered := [] |};
     last_exception := EmptyString;
     recv := None;
     recv_sync_handler := None;
     disposed := false |}.

(** [w->isolate->Dispose(); delete(w);].  On a worker already disposed both
    statements act on storage that has been released. *)
Definition worker_dispose (w : worker) : Outcome worker :=
  if disposed w then Crash UseAfterFree else Ok (set_disposed true w).

(** *** worker.go: the Worker *)

(** This is a golang wrapper around a single V8 Isolate.  [finalizer_id] is
    the [id] captured by the finalizer that [New] attaches. *)
Record Worker := {
  cWorker : worker;
  finalizer_id : Z
}.

Definition set_cWorker (c : worker) (w : Worker) : Worker :=
  {| cWorker := c; finalizer_id := finalizer_id w |}.

(** ScriptOrigin represents V8 class *)
Record ScriptOrigin := {
  ScriptName : string;
  LineOffset : Z;
  ColumnOffset : Z;
  IsSharedCrossOrigin : bool;
  ScriptId : Z;
  IsEmbedderDebugScript : bool;
  SourceMapURL : string;
  IsOpaque : bool
}.

Definition set_ScriptName (n : string) (o : ScriptOrigin) : ScriptOrigin :=
  {| ScriptName := n; LineOffset := LineOffset o;
     ColumnOffset := ColumnOffset o;
     IsSharedCrossOrigin := IsSharedCrossOrigin o; ScriptId := ScriptId o;
     IsEmbedderDebugScript := IsEmbedderDebugScript o;
     SourceMapURL := SourceMapURL o; IsOpaque := IsOpaque o |}.

(** [new(ScriptOrigin)]: every field at its zero value. *)
Definition new_ScriptOrigin : ScriptOrigin :=
  {| ScriptName := EmptyString; LineOffset := 0; ColumnOffset := 0;
     IsSharedCrossOrigin := false; ScriptId := 0;
     IsEmbedderDebugScript := false; SourceMapURL := EmptyString;
     IsOpaque := false |}.

(** A Go [error]: [None] is nil. *)
Definition error := option string.
Definition errors_New (text : string) : error := Some text.

Definition nextWorkerId (g : GoState) : Z * GoState :=
  let seq := workerIdSequence g in
  let g := set_workerIdSequence (wrap_int (workerIdSequence g + 1)) g in
  (seq, g).

Definition nextScriptName (g : GoState) : string * GoState :=
  let seq := scriptSequence g in
  let g := set_scriptSequence (wrap_int (scriptSequence g + 1)) g in
  ("VM" +:+ Itoa seq, g).

(** New creates a new worker, which corresponds to a V8 isolate. *)
Definition New (cb : option ReceiveMessageCallback)
    (syncCB : option ReceiveSyncMessageCallback) (g : GoState)
  : Worker * GoState :=
  let '(id, g) := nextWorkerId g in
  let cbWrapper := {| cb := cb; syncCB := syncCB |} in
  let g := set_callbacksMap (<[id := cbWrapper]> (callbacksMap g)) g in
  let worker := {| cWorker := worker_new (C_int id); finalizer_id := id |} in
  (worker, g).

(** The finalizer set in [New]: [worker_dispose], then the registry entry
    of the captured [id] is deleted. *)
Definition finalize (final_worker : Worker) (g : GoState)
  : Outcome (Worker * GoState) :=
  let* c := worker_dispose (cWorker final_worker) in
  let id := finalizer_id final_worker in
  let g := set_callbacksMap (delete id (callbacksMap g)) g in
  Ok (set_cWorker c final_worker, g).

(** LoadWithOptions loads and executes a javascript file with the
    ScriptOrigin specified by origin and the contents of the file specified
    by the param code.  [origin] is a pointer: [None] is nil, and the
    struct it points to is returned as the call leaves it. *)
Definition Worker_LoadWithOptions (w : Worker) (origin : option ScriptOrigin)
    (code : string) (g : GoState)
  : Outcome (error * ScriptOrigin * Worker * GoState) :=
  let cCode := C_CString code in
  let origin :=
    match origin with
    | None => new_ScriptOrigin
    | Some o => o
    end in
  let '(origin, g) :=
    if decide (ScriptName origin = EmptyString) then
      let '(name, g) := nextScriptName g in
      (set_ScriptName name origin, g)
    else (origin, g) in
  let cScriptName := C_CString (ScriptName origin) in
  let cLineOffset := C_int (LineOffset origin) in
  let cColumnOffset := C_int (ColumnOffset origin) in
  let cIsSharedCrossOrigin := IsSharedCrossOrigin origin in
  let cScriptId := C_int (ScriptId origin) in
  let cIsEmbedderDebugScript := IsEmbedderDebugScript origin in
  let cSourceMapURL := C_CString (SourceMapURL origin) in
  let cIsOpaque := IsOpaque origin in
  let* '(r, c, g) :=
    worker_load (cWorker w) cCode cScriptName cLineOffset cColumnOffset
      cIsSharedCrossOrigin cScriptId cIsEmbedderDebugScript cSourceMapURL
      cIsOpaque g in
  if decide (r ≠ 0) then
    let errStr := worker_last_exception c in
    Ok (errors_New (C_GoString errStr), origin, set_cWorker c w, g)
  else Ok (None, origin, set_cWorker c w, g).

(** Load loads and executes a javascript file with the filename specified by
    scriptName and the contents of the file specified by the param code. *)
Definition Worker_Load (w : Worker) (scriptName code : string) (g : GoState)
  : Outcome (error * Worker * GoState) :=
  let* '(err, _, w, g) :=
    Worker_LoadWithOptions w
      (Some (set_ScriptName scriptName new_ScriptOrigin)) code g in
  Ok (err, w, g).

(** Send sends a message to a worker. The $recv callback in js will be
    called. *)
Definition Worker_Send (w : Worker) (msg : string) (g : GoState)
  : Outcome (error * Worker * GoState) :=
  let msg_s := C_CString msg in
  let* '(r, c, g) := worker_send (cWorker w) msg_s g in
  if decide (r ≠ 0) then
    let errStr := worker_last_exception c in
    Ok (errors_New (C_GoString errStr), set_cWorker c w, g)
  else Ok (None, set_cWorker c w, g).

(** [C.GoString] of a pointer that [worker_send_sync] returned. *)
Definition GoString_c_str (p : c_str) : string :=
  match p with
  | Literal s => C_GoString s
  | Released s => C_GoString (read_released s)
  end.

(** SendSync sends a message to a worker. The $recvSync callback in js will
    be called.  That callback will return a string which is passed to golang
    and used as the return value of SendSync. *)
Definition Worker_SendSync (w : Worker) (msg : string) (g : GoState)
  : Outcome (string * Worker * GoState) :=
  let msg_s := C_CString msg in
  let* '(svalue, c, g) := worker_send_sync (cWorker w) msg_s g in
  Ok (GoString_c_str svalue, set_cWorker c w, g).

(** *** The host's calls on one Worker, taken together *)

Inductive HostCall :=
| DoLoadWithOptions (origin : option ScriptOrigin) (code : string)
| DoSend (msg : string)
| DoSendSync (msg : string).

Inductive Reply :=
| Loaded (err : error) (origin : ScriptOrigin)
| Sent (err : error)
| Replied (text : string).

Definition host_call (op : HostCall) (w : Worker) (g : GoState)
  : Outcome (Reply * Worker * GoState) :=
  match op with
  | DoLoadWithOptions origin code =>
      let* '(err, origin, w, g) := Worker_LoadWithOptions w origin code g in
      Ok (Loaded err origin, w, g)
  | DoSend msg =>
      let* '(err, w, g) := Worker_Send w msg g in
      Ok (Sent err, w, g)
  | DoSendSync msg =>
      let* '(text, w, g) := Worker_SendSync w msg g in
      Ok (Replied text, w, g)
  end.

(** *** A process over its lifetime

    The package state, the Workers created so far in order of creation
    ([None] once the finalizer has run), and the identities [New] drew for
    them. *)
Record Process := {
  go : GoState;
  workers : list (option Worker);
  issued : list Z
}.

Definition boot (u : U) : Process :=
  {| go := process_start u; workers := []; issued := [] |}.

Inductive Step :=
| Create (cb : option ReceiveMessageCallback)
         (syncCB : option ReceiveSyncMessageCallback)
| Use (k : nat) (op : HostCall)
| Collect (k : nat).

(** One step of the host program; [None] when a call brings the process
    down or never returns.  Steps that name no live Worker do nothing. *)
Definition step (s : Step) (p : Process) : option Process :=
  match s with
  | Create cb syncCB =>
      let '(w, g) := New cb syncCB (go p) in
      Some {| go := g; workers := workers p ++ [Some w];
              issued := issued p ++ [finalizer_id w] |}
  | Use k op =>
      match workers p !! k with
      | Some (Some w) =>
          match host_call op w (go p) with
          | Ok (_, w, g) =>
              Some {| go := g; workers := <[k := Some w]> (workers p);
                      issued := issued p |}
          | _ => None
          end
      | _ => Some p
      end
  | Collect k =>
      match workers p !! k with
      | Some (Some w) =>
          match finalize w (go p) with
          | Ok (_, g) =>
              Some {| go := g; workers := <[k := None]> (workers p);
                      issued := issued p |}
          | _ => None
          end
      | _ => Some p
      end
  end.

(** The process after [steps], or where it stood when it stopped. *)
Fixpoint run_process (steps : list Step) (p : Process) : Process :=
  match steps with
  | [] => p
  | s :: rest =>
      match step s p with
      | Some p' => run_process rest p'
      | None => p
      end
  end.
End Bridge.

Arguments cb {U} c.
Arguments syncCB {U} c.
Arguments scriptSequence {U} g.
Arguments workerIdSequence {U} g.
Arguments callbacksMap {U} g.
Arguments host {U} g.
Arguments set_scriptSequence {U} n g.
Arguments set_workerIdSequence {U} n g.
Arguments set_callbacksMap {U} m g.
Arguments set_host {U} u g.
Arguments recvCb {U} msg_s workerId g.
Arguments recvSyncCb {U} msg_s workerId g.
Arguments process_start {U} u.
Arguments Send {engine U} v w g.
Arguments SendSync {engine U} v w g.
Arguments exec {engine U} e w g.
Arguments worker_load {engine U} w source_s name_s line_offset_s
  column_offset_s is_shared_cross_origin_s script_id_s
  is_embedder_debug_script_s source_map_url_s is_opaque_s g.
Arguments worker_send {engine U} w msg g.
Arguments worker_send_sync {engine U} w msg g.
Arguments nextWorkerId {U} g.
Arguments nextScriptName {U} g.
Arguments New {engine U} cb syncCB g.
Arguments finalize {engine U} final_worker g.
Arguments Worker_LoadWithOptions {engine U} w origin code g.
Arguments Worker_Load {engine U} w scriptName code g.
Arguments Worker_Send {engine U} w msg g.
Arguments Worker_SendSync {engine U} read_released w msg g.
Arguments host_call {engine U} read_released op w g.
Arguments go {engine U} p.
Arguments workers {engine U} p.
Arguments issued {engine U} p.
Arguments boot {engine U} u.
Arguments Create {U} cb syncCB.
Arguments Use {U} k op.
Arguments Collect {U} k.
Arguments step {engine U} read_released s p.
Arguments run_process {engine U} read_released steps p.

(** ** A small engine to run the bridge on

    Strings are kept as their UTF-8 bytes, the heap holds nothing, and the
    compiler tells a handful of programs apart. *)
Module Sample.
Inductive function := Echo | FortyTwo | Thrower | Forwarder.

Inductive script := Setup | SetupNumeric | Boom | Quiet.

Definition syntax_error : TryCatch :=
  {| Exception := Some "SyntaxError: Unexpected token ;";
     GetMessage := Some {| ResourceName := Some "main.js";
                           GetLineNumber := 1;
                           GetSourceLine := Some "var x = ;";
                           GetStartColumn := 8;
                           GetEndColumn := 9 |};
     StackTrace := Some "SyntaxError: Unexpected token ;" |}.

Definition boom : TryCatch :=
  {| Exception := Some "Error: boom";
     GetMessage := Some {| ResourceName := Some "main.js";
                           GetLineNumber := 1;
                           GetSourceLine := Some "throw new Error('boom')";
                           GetStartColumn := 0;
                           GetEndColumn := 5 |};
     StackTrace := Some "Error: boom
  at main.js:1:7" |}.

Definition bare : TryCatch :=
  {| Exception := Some "out of luck"; GetMessage := None;
     StackTrace := None |}.

Definition compile (source : string) : TryCatch + script :=
  if decide (source = "var x = ;") then inl syntax_error
  else if decide (source = "throw new Error('boom')") then inr Boom
  else if decide (source = "$recv($send); $recvSync(function (m) { return m })")
  then inr Setup
  else if decide (source = "$recvSync(function () { return 42 })")
  then inr SetupNumeric
  else inr Quiet.

Definition run (s : script) (h : unit) : Exec string function unit :=
  match s with
  | Setup => CallRecv (VFunction Forwarder)
               (CallRecvSync (VFunction Echo) (Done h (Returned VUndefined)))
  | SetupNumeric => CallRecvSync (VFunction FortyTwo)
                      (Done h (Returned VUndefined))
  | Boom => Done h (Thrown boom)
  | Quiet => Done h (Returned VUndefined)
  end.

Definition call (f : function) (arg : string) (h : unit)
  : Exec string function unit :=
  match f with
  | Echo => Done h (Returned (VString arg))
  | FortyTwo => Done h (Returned (VNumber 42))
  | Thrower => Done h (Thrown bare)
  | Forwarder => CallSend (VString arg) (Done h (Returned VUndefined))
  end.

#[global] Instance engine : Engine :=
  {| JSString := string;
     Function := function;
     Script := script;
     Heap := unit;
     utf8_decode := fun bytes => bytes;
     utf8_encode := fun s => s;
     Context_New := tt;
     Script_Compile := fun _ source _ => compile source;
     Script_Run := run;
     Function_Call := call |}.

(** The host keeps the messages it received, newest first. *)
Definition inbox := list string.

Definition on_message : string -> inbox -> Ending inbox :=
  fun msg u => Returns (msg :: u).

Definition on_request : string -> inbox -> Ending (string * inbox) :=
  fun msg u => Returns ("re: " +:+ msg, msg :: u).

(** Released storage that still holds its bytes when it is read. *)
Definition intact (s : string) : string := s.

Definition start : GoState inbox := process_start [].

Definition fresh : Worker * GoState inbox :=
  New (Some on_message) (Some on_request) start.

(** [w.Load("main.js", code)], keeping the Worker and the package state. *)
Definition after_load (code : string) (st : Worker * GoState inbox)
  : Worker * GoState inbox :=
  match Worker_Load st.1 "main.js" code st.2 with
  | Ok (_, w, g) => (w, g)
  | _ => st
  end.

(** A Worker whose script echoes sync messages and forwards async ones. *)
Definition ready : Worker * GoState inbox :=
  after_load "$recv($send); $recvSync(function (m) { return m })" fresh.

(** A Worker whose sync handler answers with a number. *)
Definition numeric : Worker * GoState inbox :=
  after_load "$recvSync(function () { return 42 })" fresh.

Definition greeting : string := "grüße ✓".

End Sample.

(** ** Vocabulary of the statements *)

(** A string with no NUL byte: a C-string reader sees all of it. *)
Definition NoNUL (s : string) : Prop := strz s = s.

(** [n] copies of one character. *)
Fixpoint replicate_char (n : nat) (c : ascii) : string :=
  match n with
  | O => EmptyString
  | S n' => String c (replicate_char n' c)
  end.

(** What [ExceptionString] appends for a [Utf8Value]: its bytes read as a C
    string, or the fixed text of a failed conversion. *)
Definition c_string (v : Utf8Value) : string := strz (ToCString v).

(** Blanks up to the start column, then one caret per column up to the end
    column. *)
Definition marker_line (start end_ : Z) : string :=
  replicate_char (Z.to_nat start) " " +:+
  replicate_char (Z.to_nat (end_ - start)) "^".

(** The [k]-th identity drawn since the process started. *)
Definition nth_identity (k : nat) : Z := wrap_int (Z.of_nat k).

Ltac wrap_arith :=
  unfold wrap_int, C_int in *; Z.div_mod_to_equations; lia.

Section Vocabulary.
Context {engine : Engine} {U : Type}.
Implicit Types (w : worker) (g : GoState U) (W : Worker) (p : Process U).

(** What script code cannot touch on the worker and in the Go package. *)
Definition worker_frame w w' : Prop :=
  worker_id w' = worker_id w ∧
  last_exception w' = last_exception w ∧
  entered (isolate w') = entered (isolate w).

Definition go_frame g g' : Prop :=
  scriptSequence g' = scriptSequence g ∧
  workerIdSequence g' = workerIdSequence g ∧
  callbacksMap g' = callbacksMap g.

(** The origin a load works with and the package state once a name has been
    drawn for it. *)
Definition resolved (origin : option ScriptOrigin) g
  : ScriptOrigin * GoState U :=
  let o := default new_ScriptOrigin origin in
  if decide (ScriptName o = EmptyString)
  then (set_ScriptName ("VM" +:+ Itoa (scriptSequence g)) o,
        set_scriptSequence (wrap_int (scriptSequence g + 1)) g)
  else (o, g).


(** A Worker with its last-diagnostic slot blanked. *)
Definition forget W : Worker :=
  set_cWorker (set_last_exception EmptyString (cWorker W)) W.

Definition forgetting (r : Reply * Worker * GoState U)
  : Reply * Worker * GoState U :=
  let '(reply, W, g) := r in (reply, forget W, g).

(** A handler that hands its argument back and does nothing else. *)
Definition returns_its_argument (handler : Function) : Prop :=
  ∀ (s : JSString) (h : Heap),
    ∃ h', Function_Call handler s h = Done h' (Returned (VString s)).

Inductive Registration :=
| RegisterAsync (handler : Function)
| RegisterSync (handler : Function).

(** A script's call [$recv(handler)] or [$recvSync(handler)]. *)
Definition register (r : Registration) w : Outcome worker :=
  match r with
  | RegisterAsync handler => Recv (VFunction handler) w
  | RegisterSync handler => RecvSync (VFunction handler) w
  end.

Fixpoint register_all (rs : list Registration) w : Outcome worker :=
  match rs with
  | [] => Ok w
  | r :: rs' => let* w := register r w in register_all rs' w
  end.

(** Script code that makes the registrations [rs] and goes on as [k]. *)
Fixpoint registering (rs : list Registration)
    (k : Exec JSString Function Heap) : Exec JSString Function Heap :=
  match rs with
  | [] => k
  | RegisterAsync handler :: rs' =>
      CallRecv (VFunction handler) (registering rs' k)
  | RegisterSync handler :: rs' =>
      CallRecvSync (VFunction handler) (registering rs' k)
  end.

(** The handler of the last async (sync) registration in [rs], or [old] when
    there is none. *)
Fixpoint last_async (rs : list Registration) (old : option Function)
  : option Function :=
  match rs with
  | [] => old
  | RegisterAsync handler :: rs' => last_async rs' (Some handler)
  | RegisterSync _ :: rs' => last_async rs' old
  end.

Fixpoint last_sync (rs : list Registration) (old : option Function)
  : option Function :=
  match rs with
  | [] => old
  | RegisterAsync _ :: rs' => last_sync rs' old
  | RegisterSync handler :: rs' => last_sync rs' (Some handler)
  end.

(** The identities drawn so far are the first values of the counter, in
    order, and the counter stands at the next one. *)
Definition counted p : Prop :=
  issued p = nth_identity <$> seq 0 (length (issued p))
  ∧ workerIdSequence (go p) = nth_identity (length (issued p)).
End Vocabulary.

(** ** More of binding.cc and worker.go *)



(** [v8::HeapStatistics], through its accessors: [size_t] values. *)
Record V8HeapStatistics := {
  total_heap_size : Z;
  total_heap_size_executable : Z;
  total_physical_size : Z;
  total_available_size : Z;
  used_heap_size : Z;
  heap_size_limit : Z;
  malloced_memory : Z;
  does_zap_garbage : Z
}.

Definition in_size_t (z : Z) : Prop := 0 <= z < 2 ^ 64.

(** [struct heap_statistics_s]: eight C [int]s. *)
Record heap_statistics_s := {
  hs_total_heap_size : Z;
  hs_total_heap_size_executable : Z;
  hs_total_physical_size : Z;
  hs_total_available_size : Z;
  hs_used_heap_size : Z;
  hs_heap_size_limit : Z;
  hs_malloced_memory : Z;
  hs_does_zap_garbage : Z
}.

(** [worker_get_heap_statistics], given what [GetHeapStatistics] filled in.
    Each assignment converts a [size_t] to an [int]; the one of
    [malloced_memory] is commented out in the source, so that field of [hs]
    stays as it was. *)
Definition worker_get_heap_statistics (heap_statistics : V8HeapStatistics)
    (hs : heap_statistics_s) : heap_statistics_s :=
  {| hs_total_heap_size := C_int (total_heap_size heap_statistics);
     hs_total_heap_size_executable :=
       C_int (total_heap_size_executable heap_statistics);
     hs_total_physical_size := C_int (total_physical_size heap_statistics);
     hs_total_available_size := C_int (total_available_size heap_statistics);
     hs_used_heap_size := C_int (used_heap_size heap_statistics);
     hs_heap_size_limit := C_int (heap_size_limit heap_statistics);
     hs_malloced_memory := hs_malloced_memory hs;
     hs_does_zap_garbage := C_int (does_zap_garbage heap_statistics) |}.

(** HeapStatistics represents V8 class *)
Record HeapStatistics := {
  TotalHeapSize : Z;
  TotalHeapSizeExecutable : Z;
  TotalPhysicalSize : Z;
  TotalAvailableSize : Z;
  UsedHeapSize : Z;
  HeapSizeLimit : Z;
  MallocedMemory : Z;
  DoesZapGarbage : Z
}.

(** GetHeapStatistics returns statistics about the V8 isolate heap memory
    usage.  [hs] starts as the zero struct. *)
Definition Worker_GetHeapStatistics (heap_statistics : V8HeapStatistics)
  : HeapStatistics :=
  let hs :=
    {| hs_total_heap_size := 0; hs_total_heap_size_executable := 0;
       hs_total_physical_size := 0; hs_total_available_size := 0;
       hs_used_heap_size := 0; hs_heap_size_limit := 0;
       hs_malloced_memory := 0; hs_does_zap_garbage := 0 |} in
  let hs := worker_get_heap_statistics heap_statistics hs in
  {| TotalHeapSize := hs_total_heap_size hs;
     TotalHeapSizeExecutable := hs_total_heap_size_executable hs;
     TotalPhysicalSize := hs_total_physical_size hs;
     TotalAvailableSize := hs_total_available_size hs;
     UsedHeapSize := hs_used_heap_size hs;
     HeapSizeLimit := hs_heap_size_limit hs;
     MallocedMemory := hs_malloced_memory hs;
     DoesZapGarbage := hs_does_zap_garbage hs |}.

(** Each field Go reports beside the engine's value it was copied from. *)
Definition reported_sizes (heap_statistics : V8HeapStatistics)
  : list (Z * Z) :=
  let r := Worker_GetHeapStatistics heap_statistics in
  [(TotalHeapSize r, total_heap_size heap_statistics);
   (TotalHeapSizeExecutable r, total_heap_size_executable heap_statistics);
   (TotalPhysicalSize r, total_physical_size heap_statistics);
   (TotalAvailableSize r, total_available_size heap_statistics);
   (UsedHeapSize r, used_heap_size heap_statistics);
   (HeapSizeLimit r, heap_size_limit heap_statistics);
   (DoesZapGarbage r, does_zap_garbage heap_statistics)].


Section MoreVocabulary.
Context {engine : Engine} {U : Type}.
Implicit Types (w : worker) (g : GoState U) (W : Worker) (p : Process U).

(** [n] calls of [nextScriptName] in a row: the names, first to last. *)
Fixpoint draw_script_names (n : nat) g : list string * GoState U :=
  match n with
  | O => ([], g)
  | S n' =>
      let '(name, g) := nextScriptName g in
      let '(names, g) := draw_script_names n' g in
      (name :: names, g)
  end.

(** A host program that, [n] times over, creates a Worker and lets it be
    collected; the first of them is the [from]-th Worker of the process. *)
Fixpoint churn (from n : nat) : list (@Step U) :=
  match n with
  | O => []
  | S n' => Create None None :: Collect from :: churn (S from) n'
  end.

(** Every Worker still alive stands where its identity was drawn, and its C
    side carries that identity as a C [int]. *)
Definition workers_keep_ids p : Prop :=
  length (workers p) = length (issued p)
  ∧ ∀ k W, workers p !! k = Some (Some W) →
      issued p !! k = Some (finalizer_id W)
      ∧ worker_id (cWorker W) = C_int (finalizer_id W).

(** The registry has an entry for an identity exactly when a Worker alive
    carries it. *)
Definition registry_tracks_live p : Prop :=
  ∀ id, is_Some (callbacksMap (go p) !! id) ↔
        ∃ k W, workers p !! k = Some (Some W) ∧ finalizer_id W = id.
End MoreVocabulary.

(** ** More runs of the small engine *)

Module Run.
(** A heap whose limit, two gigabytes and a little, does not fit a C [int]. *)
Definition busy_heap : V8HeapStatistics :=
  {| total_heap_size := 5242880;
     total_heap_size_executable := 1048576;
     total_physical_size := 4194304;
     total_available_size := 2194669568;
     used_heap_size := 3145728;
     heap_size_limit := 2197815296;
     malloced_memory := 8192;
     does_zap_garbage := 0 |}.

(** A Worker both of whose handlers throw. *)
Definition throwing : Worker :=
  match register_all [@RegisterAsync Sample.engine Sample.Thrower;
                      @RegisterSync Sample.engine Sample.Thrower]
          (cWorker Sample.fresh.1) with
  | Ok c => set_cWorker c Sample.fresh.1
  | _ => Sample.fresh.1
  end.

(** An engine whose code hands a number to [$recv]. *)
Definition careless : Engine :=
  {| JSString := string;
     Function := unit;
     Script := unit;
     Heap := unit;
     utf8_decode := fun bytes => bytes;
     utf8_encode := fun s => s;
     Context_New := tt;
     Script_Compile := fun _ _ _ => inr tt;
     Script_Run := fun _ h =>
       CallRecv (VNumber 42) (Done h (Returned VUndefined));
     Function_Call := fun _ _ h =>
       CallRecv (VNumber 42) (Done h (Returned VUndefined)) |}.

(** A Worker of that engine whose async handler is such code. *)
Definition sloppy : @Worker careless :=
  let W := (@New careless Sample.inbox None None Sample.start).1 in
  match @register_all careless [@RegisterAsync careless tt]
          (@cWorker careless W) with
  | Ok c => @set_cWorker careless c W
  | _ => W
  end.

(** Released storage as the C++ library and the allocator leave it.  A
    [std::string] of up to 15 bytes keeps them inside the object, on the
    stack, where they still lie when Go copies them; a longer one has its
    buffer on the heap, and the allocator has written over the start of the
    freed buffer. *)
Definition reclaimed (s : string) : string :=
  if decide (String.length s ≤ 15)%nat then s
  else String "208" (String "173" (String "222" EmptyString)).

(** A fault whose message holds a NUL byte, as throwing the string [E], NUL, [rest] raises. *)
Definition nul_fault : TryCatch :=
  {| Exception := Some (String "E" (String NUL "rest"));
     GetMessage := None;
     StackTrace := None |}.

(** A fault with a position whose stack trace starts with a NUL byte. *)
Definition nul_trace : TryCatch :=
  {| Exception := Some "Error: boom";
     GetMessage := Some {| ResourceName := Some "main.js";
                           GetLineNumber := 1;
                           GetSourceLine := Some "throw e";
                           GetStartColumn := 0;
                           GetEndColumn := 5 |};
     StackTrace := Some (String NUL "trace") |}.



(** A process that creates three Workers and finalizes the first. *)
Definition history : list (@Step Sample.inbox) :=
  [Create (Some Sample.on_message) (Some Sample.on_request);
   Use 0 (DoLoadWithOptions None "var x = ;");
   Create None None;
   Collect 0;
   Create None (Some Sample.on_request)].
End Run.

(** * Facts *)

(** ** C strings *)

Section CStrings.
Implicit Types s t u out : string.

Lemma sapp_cons a s t : String a s +:+ t = String a (s +:+ t).
Proof. reflexivity. Qed.

Lemma sapp_empty_l t : EmptyString +:+ t = t.
Proof. reflexivity. Qed.

Lemma sapp_empty_r s : s +:+ EmptyString = s.
Proof. induction s as [|a s IH]; [done|]. by rewrite sapp_cons, IH. Qed.

Lemma sapp_assoc s t u : (s +:+ t) +:+ u = s +:+ (t +:+ u).
Proof. induction s as [|a s IH]; [done|]. by rewrite !sapp_cons, IH. Qed.

Lemma slength_app s t :
  String.length (s +:+ t) = (String.length s + String.length t)%nat.
Proof.
  induction s as [|a s IH]; [done|]. rewrite sapp_cons. simpl. by rewrite IH.
Qed.

Lemma strz_idemp s : strz (strz s) = strz s.
Proof.
  induction s as [|a s IH]; simpl; [done|].
  destruct (Ascii.eqb a NUL) eqn:E; simpl; [done|]. by rewrite E, IH.
Qed.

Lemma NoNUL_strz s : NoNUL (strz s).
Proof. apply strz_idemp. Qed.

Lemma NoNUL_cons a s : a ≠ NUL → NoNUL s → NoNUL (String a s).
Proof.
  unfold NoNUL. intros Ha Hs. simpl.
  destruct (Ascii.eqb_spec a NUL); [done|]. by rewrite Hs.
Qed.

Lemma NoNUL_cons_inv a s : NoNUL (String a s) → a ≠ NUL ∧ NoNUL s.
Proof.
  unfold NoNUL. simpl. destruct (Ascii.eqb_spec a NUL); [done|].
  intros [=]. done.
Qed.

Lemma strz_app s t : NoNUL s → strz (s +:+ t) = s +:+ strz t.
Proof.
  induction s as [|a s IH]; [done|].
  intros [Ha Hs]%NoNUL_cons_inv. rewrite !sapp_cons. simpl.
  destruct (Ascii.eqb_spec a NUL); [done|]. by rewrite IH.
Qed.

Lemma NoNUL_app s t : NoNUL s → NoNUL t → NoNUL (s +:+ t).
Proof. intros Hs Ht. unfold NoNUL. by rewrite strz_app, Ht. Qed.

Lemma NoNUL_append_cstr out p : NoNUL out → NoNUL (append_cstr out p).
Proof. intros. apply NoNUL_app; [done|apply NoNUL_strz]. Qed.

Lemma NoNUL_append_times n piece out :
  NoNUL out → NoNUL (append_times n piece out).
Proof.
  revert out. induction n as [|n IH]; intros out Hout; [done|].
  simpl. by apply IH, NoNUL_append_cstr.
Qed.

Lemma C_GoString_NoNUL s : NoNUL s → C_GoString s = s.
Proof. done. Qed.

(** A reader of a C string never sees a NUL byte, whatever was stored. *)
Lemma C_GoString_differs s t : ¬ NoNUL t → C_GoString s ≠ t.
Proof. intros Ht <-. apply Ht, NoNUL_strz. Qed.

Lemma replicate_char_snoc n c :
  replicate_char (S n) c = replicate_char n c +:+ String c EmptyString.
Proof.
  induction n as [|n IH]; [done|]. simpl in *. by rewrite sapp_cons, <-IH.
Qed.

Lemma append_times_char n c out :
  c ≠ NUL →
  append_times n (String c EmptyString) out = out +:+ replicate_char n c.
Proof.
  intros Hc. revert out. induction n as [|n IH]; intros out.
  - simpl. by rewrite sapp_empty_r.
  - cbn [append_times]. rewrite IH. unfold append_cstr. simpl strz.
    destruct (Ascii.eqb_spec c NUL); [done|].
    rewrite sapp_assoc. f_equal.
Qed.

Lemma length_replicate_char n c : String.length (replicate_char n c) = n.
Proof. induction n; simpl; congruence. Qed.

Lemma get_app_l s t i :
  (i < String.length s)%nat → String.get i (s +:+ t) = String.get i s.
Proof.
  revert i. induction s as [|a s IH]; intros i Hi; simpl in *; [lia|].
  destruct i as [|i]; simpl; [done|]. apply IH. lia.
Qed.

Lemma get_app_r s t i :
  (String.length s ≤ i)%nat →
  String.get i (s +:+ t) = String.get (i - String.length s) t.
Proof.
  revert i. induction s as [|a s IH]; intros i Hi; simpl in *.
  - by rewrite Nat.sub_0_r.
  - destruct i as [|i]; simpl; [lia|]. apply IH. lia.
Qed.

Lemma get_replicate_char n c i :
  String.get i (replicate_char n c)
  = if decide (i < n)%nat then Some c else None.
Proof.
  revert i. induction n as [|n IH]; intros i; simpl.
  - by destruct i.
  - destruct i as [|i]; simpl; [done|]. rewrite IH.
    repeat case_decide; done || lia.
Qed.

Lemma take_str_all n s : (String.length s ≤ n)%nat → take_str n s = s.
Proof.
  revert n. induction s as [|a s IH]; intros [|n] Hn; simpl in *;
    try done; [lia|].
  rewrite IH; [done|lia].
Qed.
End CStrings.

(** ** Decimal numerals *)

Section Decimal.
Implicit Types s : string.

Lemma pretty_N_char_not_NUL x : pretty_N_char x ≠ NUL.
Proof. unfold pretty_N_char. by repeat case_match. Qed.

Lemma NoNUL_pretty_N_go x s : NoNUL s → NoNUL (pretty_N_go x s).
Proof.
  revert s. induction (N.lt_wf_0 x) as [x _ IH]; intros s Hs.
  destruct (decide (x = 0%N)) as [->|Hx]; [by rewrite pretty_N_go_0|].
  rewrite pretty_N_go_step by lia. apply IH.
  - apply N.div_lt; lia.
  - apply NoNUL_cons; [apply pretty_N_char_not_NUL|done].
Qed.

Lemma NoNUL_pretty_N (x : N) : NoNUL (pretty x).
Proof.
  unfold pretty, pretty_N. case_decide; [done|].
  by apply NoNUL_pretty_N_go.
Qed.

Lemma NoNUL_Itoa z : NoNUL (Itoa z).
Proof.
  unfold Itoa, pretty, pretty_Z. destruct z as [|p|p]; [done|..].
  - apply NoNUL_pretty_N.
  - apply NoNUL_app; [done|apply NoNUL_pretty_N].
Qed.

Lemma length_pretty_N_go (k : nat) (x : N) s :
  (x < 10 ^ N.of_nat k)%N →
  (String.length (pretty_N_go x s) ≤ k + String.length s)%nat.
Proof.
  revert x s. induction k as [|k IH]; intros x s Hx.
  - assert (x = 0%N) as -> by (simpl in Hx; lia).
    rewrite pretty_N_go_0. lia.
  - destruct (decide (x = 0%N)) as [->|Hx0]; [rewrite pretty_N_go_0; lia|].
    rewrite pretty_N_go_step by lia.
    etrans; [apply IH|simpl; lia].
    apply N.Div0.div_lt_upper_bound.
    rewrite Nat2N.inj_succ, N.pow_succ_r' in Hx. lia.
Qed.

Lemma length_pretty_N (k : nat) (x : N) :
  (0 < k)%nat → (x < 10 ^ N.of_nat k)%N →
  (String.length (pretty x) ≤ k)%nat.
Proof.
  intros Hk Hx. unfold pretty, pretty_N. case_decide; [simpl; lia|].
  etrans; [by apply length_pretty_N_go|simpl; lia].
Qed.

(** A C [int] prints in at most eleven characters. *)
Lemma length_Itoa z : in_c_int z → (String.length (Itoa z) ≤ 11)%nat.
Proof.
  unfold in_c_int, Itoa, pretty, pretty_Z. intros Hz.
  destruct z as [|p|p]; [simpl; lia|..].
  - etrans; [apply (length_pretty_N 10); [lia|]|lia].
    change (10 ^ N.of_nat 10)%N with 10000000000%N. lia.
  - rewrite slength_app.
    etrans; [apply Nat.add_le_mono_l, (length_pretty_N 10); [lia|]
            |simpl; lia].
    change (10 ^ N.of_nat 10)%N with 10000000000%N. lia.
Qed.

(** The scratch buffer is large enough for every C [int]. *)
Lemma snprintf_i_Itoa z : in_c_int z → snprintf_i z = Itoa z.
Proof.
  intros Hz. apply take_str_all. pose proof (length_Itoa z Hz).
  unfold scratchSize. lia.
Qed.

Lemma VM_name_injective a b : "VM" +:+ Itoa a = "VM" +:+ Itoa b → a = b.
Proof.
  intros H. apply (inj (String.app "VM")) in H. by apply (inj pretty) in H.
Qed.
End Decimal.

(** ** The exception translator *)

Lemma NoNUL_ExceptionString try_catch : NoNUL (ExceptionString try_catch).
Proof.
  unfold ExceptionString.
  destruct (GetMessage try_catch) as [message|]; cbv zeta.
  - case_decide;
      repeat first [apply NoNUL_append_cstr | apply NoNUL_append_times]; done.
  - repeat apply NoNUL_append_cstr. done.
Qed.

Lemma marker_line_caret start end_ (i : nat) :
  0 ≤ start →
  String.get i (marker_line start end_) = Some "^"%char ↔
  start ≤ Z.of_nat i < end_.
Proof.
  intros Hs. unfold marker_line.
  destruct (decide (i < Z.to_nat start)%nat) as [Hi|Hi].
  - rewrite get_app_l by (rewrite length_replicate_char; lia).
    rewrite get_replicate_char. rewrite decide_True by done.
    split; [intros [=]|lia].
  - rewrite get_app_r by (rewrite length_replicate_char; lia).
    rewrite length_replicate_char, get_replicate_char.
    case_decide; split; try done; try lia.
Qed.

Lemma marker_line_space start end_ (i : nat) :
  0 ≤ start →
  String.get i (marker_line start end_) = Some " "%char ↔ Z.of_nat i < start.
Proof.
  intros Hs. unfold marker_line.
  destruct (decide (i < Z.to_nat start)%nat) as [Hi|Hi].
  - rewrite get_app_l by (rewrite length_replicate_char; lia).
    rewrite get_replicate_char. rewrite decide_True by done.
    split; [lia|done].
  - rewrite get_app_r by (rewrite length_replicate_char; lia).
    rewrite length_replicate_char, get_replicate_char.
    case_decide; split; try done; try lia.
Qed.

(** C6.  [ExceptionString] yields one text.  With no message attached to the
    fault it is the fault message on a line of its own.  With a message it is
    four lines: the resource name, a colon and the line number; the offending
    source line; the marker line; and the stack trace when it is not empty,
    the fault message otherwise.  On the marker line the carets stand at
    exactly the columns from the start column up to the end column, behind
    blanks.  Every component is read as a C string: it appears up to its
    first NUL byte, so in full when it has none, and as the text
    [<string conversion failed>] when its conversion to UTF-8 failed.  A
    line number is a C [int]. *)
Theorem ExceptionString_format (try_catch : TryCatch) :
  (GetMessage try_catch = None →
   ExceptionString try_catch = c_string (Exception try_catch) +:+ nl) ∧
  (∀ message,
     GetMessage try_catch = Some message →
     in_c_int (GetLineNumber message) →
     ExceptionString try_catch =
       c_string (ResourceName message) +:+ ":" +:+
         Itoa (GetLineNumber message) +:+ nl +:+
       c_string (GetSourceLine message) +:+ nl +:+
       marker_line (GetStartColumn message) (GetEndColumn message) +:+ nl +:+
       (if decide (0 < utf8_length (StackTrace try_catch))%nat
        then c_string (StackTrace try_catch)
        else c_string (Exception try_catch)) +:+ nl
     ∧ (0 ≤ GetStartColumn message →
        ∀ i : nat,
          (String.get i (marker_line (GetStartColumn message)
                           (GetEndColumn message)) = Some "^"%char ↔
           GetStartColumn message ≤ Z.of_nat i < GetEndColumn message)
          ∧ (String.get i (marker_line (GetStartColumn message)
                             (GetEndColumn message)) = Some " "%char ↔
             Z.of_nat i < GetStartColumn message)))
  ∧ (∀ text,
       c_string (Some text) = strz text
       ∧ (NoNUL text → c_string (Some text) = text))
  ∧ c_string None = "<string conversion failed>".
Proof.
  split; [|split; [|done]].
  - intros Hm. unfold ExceptionString. rewrite Hm. done.
  - intros message Hm Hline. split.
    + unfold ExceptionString. rewrite Hm. cbv zeta.
      rewrite snprintf_i_Itoa by done.
      rewrite !append_times_char by done.
      unfold append_cstr, c_string, marker_line.
      rewrite (NoNUL_Itoa (GetLineNumber message)).
      change (strz ":") with ":". change (strz nl) with nl.
      case_decide; rewrite ?sapp_empty_l, ?sapp_assoc; done.
    + intros Hstart i. split.
      * by apply marker_line_caret.
      * by apply marker_line_space.
Qed.

(** ** Counters *)

Lemma wrap_int_range z : - 2 ^ 63 ≤ wrap_int z < 2 ^ 63.
Proof. wrap_arith. Qed.

Lemma wrap_int_small z : - 2 ^ 63 ≤ z < 2 ^ 63 → wrap_int z = z.
Proof. intros. wrap_arith. Qed.

Lemma wrap_int_succ z : wrap_int (wrap_int z + 1) = wrap_int (z + 1).
Proof. wrap_arith. Qed.


Lemma wrap_int_inj a b :
  0 ≤ a < 2 ^ 64 → 0 ≤ b < 2 ^ 64 → wrap_int a = wrap_int b → a = b.
Proof. intros. wrap_arith. Qed.

Lemma wrap_int_next_differs z : wrap_int (z + 1) ≠ z.
Proof. wrap_arith. Qed.

(** ** Script code and the state around it *)

Section BridgeFacts.
Context {engine : Engine} {U : Type}.
Variable read_released : string → string.
Implicit Types (w c : worker) (g : GoState U) (W : Worker).
Implicit Types (e : Exec JSString Function Heap).
Implicit Types (p : Process U) (u : U).

Lemma recvCb_frame msg_s workerId g g' :
  recvCb msg_s workerId g = Ok g' → go_frame g g'.
Proof.
  unfold recvCb. intros H.
  destruct (callbacksMap g !! workerId) as [cbs|]; [|done].
  destruct (cb cbs) as [fn|]; [|done].
  destruct (fn _ _); try done. by injection H as <-.
Qed.

Lemma recvSyncCb_frame msg_s workerId g res g' :
  recvSyncCb msg_s workerId g = Ok (res, g') → go_frame g g'.
Proof.
  unfold recvSyncCb. intros H.
  destruct (callbacksMap g !! workerId) as [cbs|]; [|done].
  destruct (syncCB cbs) as [fn|]; [|done].
  destruct (fn _ _) as [[res0 u]| |]; try done. by injection H as _ <-.
Qed.

(** Script code leaves the identity, the last-diagnostic slot and the
    history of the worker alone, and the counters and the registry of the
    package. *)
Lemma exec_frame e : ∀ w g r w' g',
  exec e w g = Ok (r, w', g') → worker_frame w w' ∧ go_frame g g'.
Proof.
  induction e as [h r0| |v k IH|v k IH|v k IH|v k IH];
    intros w g r w' g' H; simpl in H.
  - by injection H as <- <- <-.
  - done.
  - destruct v; try done. simpl in H. by apply IH in H.
  - destruct v; try done. simpl in H. by apply IH in H.
  - destruct (Send v w g) as [g1| |] eqn:Hs; try done. simpl in H.
    apply IH in H as [Hw [? [? ?]]].
    destruct v; try done. apply recvCb_frame in Hs as [? [? ?]].
    split; [done|]. repeat split; congruence.
  - destruct (SendSync v w g) as [[ret g1]| |] eqn:Hs; try done. simpl in H.
    apply IH in H as [Hw [? [? ?]]].
    destruct v; try done. simpl in Hs.
    destruct (recvSyncCb _ _ g) as [[res g2]| |] eqn:Hc; try done.
    simpl in Hs. injection Hs as _ <-.
    apply recvSyncCb_frame in Hc as [? [? ?]].
    split; [done|]. repeat split; congruence.
Qed.

(** The last-diagnostic slot is never read while script code runs. *)
Lemma exec_last_exception e s : ∀ w g,
  exec e (set_last_exception s w) g =
  omap (λ '(r, w', g'), (r, set_last_exception s w', g')) (exec e w g).
Proof.
  induction e as [h r0| |v k IH|v k IH|v k IH|v k IH]; intros w g; simpl.
  - done.
  - done.
  - destruct v as [| | | |f|]; try done. simpl.
    exact (IH (set_recv (Some f) w) g).
  - destruct v as [| | | |f|]; try done. simpl.
    exact (IH (set_recv_sync_handler (Some f) w) g).
  - change (Send v (set_last_exception s w) g) with (Send v w g).
    destruct (Send v w g); try done. simpl. apply IH.
  - change (SendSync v (set_last_exception s w) g) with (SendSync v w g).
    destruct (SendSync v w g) as [[ret g1]| |]; try done. simpl. apply IH.
Qed.

(** ** The entry points, one by one *)

Lemma worker_load_frame c source_s name_s lo co sh id dbg url op g r c' g' :
  worker_load c source_s name_s lo co sh id dbg url op g = Ok (r, c', g') →
  go_frame g g'.
Proof.
  unfold worker_load.
  destruct (Script_Compile _ _ _) as [try_catch|script].
  - by intros [= <- <- <-].
  - cbv zeta. destruct (exec _ _ g) as [[[[v|try_catch] c2] g2]| |] eqn:He;
      simpl; try done; intros [= <- <- <-]; by apply exec_frame in He as [_ ?].
Qed.

Lemma worker_load_entered c source_s name_s lo co sh id dbg url op g r c' g' :
  worker_load c source_s name_s lo co sh id dbg url op g = Ok (r, c', g') →
  ∃ origin rest,
    entered (isolate c') =
      entered (isolate c) ++ EnterCompile (NewFromUtf8 source_s) origin :: rest
    ∧ origin_name _ origin = NewFromUtf8 name_s.
Proof.
  unfold worker_load.
  set (origin := Build_V8ScriptOrigin _ _ _ _ _ _ _ _ _).
  destruct (Script_Compile _ _ _) as [try_catch|script].
  - intros [= <- <- <-]. by exists origin, [].
  - cbv zeta. destruct (exec _ _ g) as [[[[v|try_catch] c2] g2]| |] eqn:He;
      simpl; try done; intros [= <- <- <-];
      apply exec_frame in He as [[_ [_ Hen]] _]; simpl in Hen;
      exists origin, [EnterRun script]; simpl; rewrite Hen;
      by rewrite <-app_assoc.
Qed.

Lemma worker_load_last_exception s c source_s name_s lo co sh id dbg url op g :
  worker_load (set_last_exception s c) source_s name_s lo co sh id dbg url op g =
  omap (λ '(r, c', g'),
          (r, if decide (r = 0) then set_last_exception s c' else c', g'))
       (worker_load c source_s name_s lo co sh id dbg url op g).
Proof.
  unfold worker_load.
  set (source := NewFromUtf8 source_s).
  set (origin := Build_V8ScriptOrigin _ _ _ _ _ _ _ _ _).
  set (c0 := enter (EnterCompile source origin) c).
  change (enter (EnterCompile source origin) (set_last_exception s c))
    with (set_last_exception s c0).
  change (heap (isolate (set_last_exception s c0))) with (heap (isolate c0)).
  destruct (Script_Compile _ source origin) as [try_catch|script]; [done|].
  cbv zeta.
  change (enter (EnterRun script) (set_last_exception s c0))
    with (set_last_exception s (enter (EnterRun script) c0)).
  change (heap (isolate (set_last_exception s (enter (EnterRun script) c0))))
    with (heap (isolate (enter (EnterRun script) c0))).
  rewrite exec_last_exception.
  destruct (exec _ _ g) as [[[[v|try_catch] c2] g2]| |]; done.
Qed.

Lemma worker_send_frame c msg g r c' g' :
  worker_send c msg g = Ok (r, c', g') → go_frame g g'.
Proof.
  unfold worker_send. destruct (recv c) as [f|].
  - cbv zeta. destruct (exec _ _ g) as [[[[v|try_catch] c2] g2]| |] eqn:He;
      simpl; try done; intros [= <- <- <-]; by apply exec_frame in He as [_ ?].
  - by intros [= <- <- <-].
Qed.

Lemma worker_send_last_exception s c msg g :
  worker_send (set_last_exception s c) msg g =
  omap (λ '(r, c', g'),
          (r, if decide (r = 0) then set_last_exception s c' else c', g'))
       (worker_send c msg g).
Proof.
  unfold worker_send.
  change (recv (set_last_exception s c)) with (recv c).
  destruct (recv c) as [f|]; [|done]. cbv zeta.
  set (arg := NewFromUtf8 msg).
  change (enter (EnterCall f arg) (set_last_exception s c))
    with (set_last_exception s (enter (EnterCall f arg) c)).
  change (heap (isolate (set_last_exception s (enter (EnterCall f arg) c))))
    with (heap (isolate (enter (EnterCall f arg) c))).
  rewrite exec_last_exception.
  destruct (exec _ _ g) as [[[[v|try_catch] c2] g2]| |]; done.
Qed.

(** What a host call into [w] makes the engine call. *)
Lemma worker_send_enters w msg g r w' g' :
  worker_send w msg g = Ok (r, w', g') →
  entered (isolate w') =
  entered (isolate w) ++
    match recv w with
    | Some handler => [EnterCall handler (NewFromUtf8 msg)]
    | None => []
    end.
Proof.
  unfold worker_send. destruct (recv w) as [handler|].
  - cbv zeta. set (c := enter _ w).
    destruct (exec _ c g) as [[[[v|try_catch] c2] g2]| |] eqn:He; simpl;
      try done; intros [= <- <- <-];
      apply exec_frame in He as [[_ [_ Hen]] _]; by rewrite ?Hen.
  - intros [= <- <- <-]. simpl. by rewrite app_nil_r.
Qed.

Lemma worker_send_sync_frame c msg g (ptr : c_str) c' g' :
  worker_send_sync c msg g = Ok (ptr, c', g') → go_frame g g'.
Proof.
  unfold worker_send_sync. destruct (recv_sync_handler c) as [f|].
  - cbv zeta. destruct (exec _ _ g) as [[[[v|try_catch] c2] g2]| |] eqn:He;
      simpl; try done.
    apply exec_frame in He as [_ ?].
    destruct v; by intros [= <- <- <-].
  - by intros [= <- <- <-].
Qed.

Lemma worker_send_sync_last_exception s c msg g :
  worker_send_sync (set_last_exception s c) msg g =
  omap (λ '(ptr, c', g'), (ptr, set_last_exception s c', g'))
       (worker_send_sync c msg g).
Proof.
  unfold worker_send_sync.
  change (recv_sync_handler (set_last_exception s c))
    with (recv_sync_handler c).
  destruct (recv_sync_handler c) as [f|]; [|done]. cbv zeta.
  set (arg := NewFromUtf8 msg).
  change (enter (EnterCall f arg) (set_last_exception s c))
    with (set_last_exception s (enter (EnterCall f arg) c)).
  change (heap (isolate (set_last_exception s (enter (EnterCall f arg) c))))
    with (heap (isolate (enter (EnterCall f arg) c))).
  rewrite exec_last_exception.
  destruct (exec _ _ g) as [[[[v|try_catch] c2] g2]| |]; try done.
  destruct v; done.
Qed.

Lemma worker_send_sync_enters w msg g (ptr : c_str) w' g' :
  worker_send_sync w msg g = Ok (ptr, w', g') →
  entered (isolate w') =
  entered (isolate w) ++
    match recv_sync_handler w with
    | Some handler => [EnterCall handler (NewFromUtf8 msg)]
    | None => []
    end.
Proof.
  unfold worker_send_sync. destruct (recv_sync_handler w) as [handler|].
  - cbv zeta. set (c := enter _ w).
    destruct (exec _ c g) as [[[[v|try_catch] c2] g2]| |] eqn:He; simpl;
      try done.
    apply exec_frame in He as [[_ [_ Hen]] _].
    destruct v; intros [= <- <- <-]; by rewrite ?Hen.
  - intros [= <- <- <-]. simpl. by rewrite app_nil_r.
Qed.

(** ** Loading *)

Lemma resolved_workerIdSequence origin g :
  workerIdSequence (resolved origin g).2 = workerIdSequence g.
Proof. unfold resolved. by case_decide. Qed.

(** [LoadWithOptions] is [worker_load] on the resolved origin, its return
    code turned into a Go error. *)
Lemma Worker_LoadWithOptions_resolved W origin code g :
  Worker_LoadWithOptions W origin code g =
  let* '(r, c, g2) :=
    worker_load (cWorker W) (C_CString code)
      (C_CString (ScriptName (resolved origin g).1))
      (C_int (LineOffset (resolved origin g).1))
      (C_int (ColumnOffset (resolved origin g).1))
      (IsSharedCrossOrigin (resolved origin g).1)
      (C_int (ScriptId (resolved origin g).1))
      (IsEmbedderDebugScript (resolved origin g).1)
      (C_CString (SourceMapURL (resolved origin g).1))
      (IsOpaque (resolved origin g).1) (resolved origin g).2 in
  Ok (if decide (r ≠ 0) then errors_New (C_GoString (last_exception c))
      else None,
      (resolved origin g).1, set_cWorker c W, g2).
Proof.
  unfold Worker_LoadWithOptions, resolved, nextScriptName.
  destruct origin as [o|]; simpl default.
  - destruct (decide (ScriptName o = EmptyString)); simpl;
      destruct (worker_load _ _ _ _ _ _ _ _ _ _ _) as [[[r c] g2]| |]; simpl;
      try done; by case_decide.
  - simpl.
    destruct (worker_load _ _ _ _ _ _ _ _ _ _ _) as [[[r c] g2]| |]; simpl;
      try done; by case_decide.
Qed.

Lemma Worker_LoadWithOptions_frame W origin code g err o W' g' :
  Worker_LoadWithOptions W origin code g = Ok (err, o, W', g') →
  o = (resolved origin g).1
  ∧ scriptSequence g' = scriptSequence (resolved origin g).2
  ∧ workerIdSequence g' = workerIdSequence g.
Proof.
  rewrite Worker_LoadWithOptions_resolved.
  destruct (worker_load _ _ _ _ _ _ _ _ _ _ _) as [[[r c'] g2]| |] eqn:Hl;
    try done.
  simpl. intros [= <- <- <- <-].
  apply worker_load_frame in Hl as [Hs [Hw _]].
  split; [done|]. split; [done|].
  rewrite Hw. apply resolved_workerIdSequence.
Qed.


(** ** Sending *)

(** No host call reads the last-diagnostic slot it finds. *)
Lemma host_call_last_exception s op W g :
  omap forgetting
    (host_call read_released op
       (set_cWorker (set_last_exception s (cWorker W)) W) g) =
  omap forgetting (host_call read_released op W g).
Proof.
  destruct op as [origin code|msg|msg]; simpl.
  - rewrite !Worker_LoadWithOptions_resolved. simpl.
    rewrite worker_load_last_exception.
    destruct (worker_load _ _ _ _ _ _ _ _ _ _ _) as [[[r c'] g']| |]; try done.
    simpl. repeat case_decide; done.
  - unfold Worker_Send. simpl. rewrite worker_send_last_exception.
    destruct (worker_send _ _ _) as [[[r c'] g']| |]; try done.
    simpl. repeat case_decide; done.
  - unfold Worker_SendSync. simpl. rewrite worker_send_sync_last_exception.
    destruct (worker_send_sync _ _ _) as [[[ptr c'] g']| |]; done.
Qed.

Lemma host_call_workerIdSequence op W g reply W' g' :
  host_call read_released op W g = Ok (reply, W', g') →
  workerIdSequence g' = workerIdSequence g.
Proof.
  destruct op as [origin code|msg|msg]; simpl.
  - destruct (Worker_LoadWithOptions _ _ _ _) as [[[[err o] W1] g1]| |] eqn:Hl;
      try done.
    simpl. intros [= <- <- <-].
    by apply Worker_LoadWithOptions_frame in Hl as [_ [_ ?]].
  - unfold Worker_Send.
    destruct (worker_send _ _ _) as [[[r c'] g1]| |] eqn:Hs; try done.
    apply worker_send_frame in Hs as [_ [? _]].
    simpl. case_decide; by intros [= <- <- <-].
  - unfold Worker_SendSync.
    destruct (worker_send_sync _ _ _) as [[[r c'] g1]| |] eqn:Hs; try done.
    apply worker_send_sync_frame in Hs as [_ [? _]].
    simpl. by intros [= <- <- <-].
Qed.

(** C3.  [Send] to a Worker with no async handler returns the error
    [$recv not called] (not nil).  The Worker it leaves differs from the one
    it found in [last_exception] only: both handler slots, the isolate with
    its context and the identity are the same, and so is the package state.
    Every later host call ([LoadWithOptions], [Send], [SendSync], with any
    arguments) then ends exactly as it would have without the failed [Send]:
    same reply, same package state, same Worker up to [last_exception]. *)
Theorem Send_without_handler W msg g :
  recv (cWorker W) = None →
  let W1 := set_cWorker
              (set_last_exception "$recv not called" (cWorker W)) W in
  Worker_Send W msg g = Ok (errors_New "$recv not called", W1, g)
  ∧ recv (cWorker W1) = recv (cWorker W)
  ∧ recv_sync_handler (cWorker W1) = recv_sync_handler (cWorker W)
  ∧ isolate (cWorker W1) = isolate (cWorker W)
  ∧ worker_id (cWorker W1) = worker_id (cWorker W)
  ∧ ∀ op,
      omap forgetting (host_call read_released op W1 g) =
      omap forgetting (host_call read_released op W g).
Proof.
  intros Hrecv W1. split.
  - unfold Worker_Send, worker_send. rewrite Hrecv. done.
  - repeat split. intros op. apply host_call_last_exception.
Qed.

(** C4.  [SendSync] to a Worker with no sync handler returns the text
    [err: $recvSync not called] as its ordinary string result; the Worker and
    the package state are untouched, no diagnostic is stored.  [Send] to a
    Worker with no async handler, by contrast, returns an error that is not
    nil. *)
Theorem SendSync_without_handler W msg g :
  recv_sync_handler (cWorker W) = None →
  Worker_SendSync read_released W msg g =
    Ok ("err: $recvSync not called", W, g)
  ∧ (recv (cWorker W) = None →
     ∃ err W1, Worker_Send W msg g = Ok (err, W1, g) ∧ err ≠ None).
Proof.
  intros H. split.
  - unfold Worker_SendSync, worker_send_sync. rewrite H. by destruct W.
  - intros Hrecv. unfold Worker_Send, worker_send. rewrite Hrecv. simpl.
    by eexists _, _.
Qed.

(** C5.  When the sync handler's call returns a value that is not a string,
    [SendSync] returns the text [err: non-string return value]; it neither
    fails nor brings the process down. *)
Theorem SendSync_non_string_reply W msg g handler v c' g' :
  recv_sync_handler (cWorker W) = Some handler →
  let arg := NewFromUtf8 (C_CString msg) in
  let c := enter (EnterCall handler arg) (cWorker W) in
  exec (Function_Call handler arg (heap (isolate c))) c g
    = Ok (Returned v, c', g') →
  IsString v = false →
  Worker_SendSync read_released W msg g =
    Ok ("err: non-string return value", set_cWorker c' W, g').
Proof.
  intros H arg c He Hv. unfold Worker_SendSync, worker_send_sync.
  rewrite H. cbv zeta. fold arg. fold c.
  change (heap (isolate c)) with (heap (isolate (cWorker W))) in He.
  change (heap (isolate c)) with (heap (isolate (cWorker W))).
  rewrite He. simpl. by destruct v.
Qed.

(** C1.  What [SendSync] returns when the sync handler hands its argument
    back.  [worker_send_sync] returns [out.c_str()] of a local
    [std::string], whose destructor has run by the time Go copies the text.
    So for a message that a C string can carry (no NUL byte) and that the
    engine's UTF-8 decoding and encoding reproduce, Go gets whatever then
    lies where the reply was, up to its first NUL byte: the message when
    the released storage still reads as the message, and another text when
    it does not.  The package state and the Worker's slots are as they
    were. *)
Theorem SendSync_returns_released_storage W msg g handler :
  recv_sync_handler (cWorker W) = Some handler →
  returns_its_argument handler →
  NoNUL msg →
  utf8_encode (utf8_decode msg) = msg →
  ∃ W',
    Worker_SendSync read_released W msg g
      = Ok (strz (read_released msg), W', g)
    ∧ recv (cWorker W') = recv (cWorker W)
    ∧ recv_sync_handler (cWorker W') = recv_sync_handler (cWorker W)
    ∧ last_exception (cWorker W') = last_exception (cWorker W)
    ∧ (strz (read_released msg) ≠ msg →
       ∀ text W'' g'',
         Worker_SendSync read_released W msg g = Ok (text, W'', g'') →
         text ≠ msg).
Proof.
  intros Hh Hid Hnul Hrt.
  assert (∃ W', Worker_SendSync read_released W msg g
                  = Ok (strz (read_released msg), W', g)
                ∧ recv (cWorker W') = recv (cWorker W)
                ∧ recv_sync_handler (cWorker W')
                  = recv_sync_handler (cWorker W)
                ∧ last_exception (cWorker W') = last_exception (cWorker W))
    as [W' [Heq Hslots]].
  { unfold Worker_SendSync, worker_send_sync. rewrite Hh. cbv zeta.
    set (arg := NewFromUtf8 (C_CString msg)).
    set (c := enter (EnterCall handler arg) (cWorker W)).
    destruct (Hid arg (heap (isolate c))) as [h' Hcall].
    rewrite Hcall. simpl.
    unfold arg, NewFromUtf8, C_CString. rewrite Hnul, Hrt.
    unfold append_cstr. rewrite sapp_empty_l, Hnul.
    eexists. split; [reflexivity|]. done. }
  exists W'. split; [done|].
  destruct Hslots as [? [? ?]]. repeat (split; [done|]).
  intros Hne text W'' g''. rewrite Heq. by intros [= <- _ _].
Qed.

(** Whatever the handler and the engine, the text [SendSync] returns has no
    NUL byte in it. *)
Lemma Worker_SendSync_NoNUL W msg g text W' g' :
  Worker_SendSync read_released W msg g = Ok (text, W', g') → NoNUL text.
Proof.
  unfold Worker_SendSync.
  destruct (worker_send_sync _ _ _) as [[[ptr c'] g1]| |]; try done.
  simpl. intros [= <- _ _]. destruct ptr; apply NoNUL_strz.
Qed.

(** ** Registration *)

Lemma register_all_slots rs : ∀ w,
  register_all rs w =
  Ok (set_recv (last_async rs (recv w))
        (set_recv_sync_handler (last_sync rs (recv_sync_handler w)) w)).
Proof.
  induction rs as [|[handler|handler] rs IH]; intros w; simpl.
  - by destruct w.
  - by rewrite IH.
  - by rewrite IH.
Qed.

Lemma exec_registering rs k : ∀ w g,
  exec (registering rs k) w g = let* w' := register_all rs w in exec k w' g.
Proof.
  induction rs as [|[handler|handler] rs IH]; intros w g; simpl; [done|..];
    apply IH.
Qed.

(** How a send ends, by how the call of the handler in the slot ends. *)
Lemma worker_send_calls w msg g :
  worker_send w msg g =
  match recv w with
  | None => Ok (1, set_last_exception "$recv not called" w, g)
  | Some handler =>
      let arg := NewFromUtf8 msg in
      let c := enter (EnterCall handler arg) w in
      match exec (Function_Call handler arg (heap (isolate c))) c g with
      | Ok (Returned _, c', g') => Ok (0, c', g')
      | Ok (Thrown try_catch, c', g') =>
          Ok (2, set_last_exception (ExceptionString try_catch) c', g')
      | Crash why => Crash why
      | Hang => Hang
      end
  end.
Proof.
  unfold worker_send. destruct (recv w) as [handler|]; [|done]. cbv zeta.
  by destruct (exec _ _ g) as [[[[v|try_catch] c'] g']| |].
Qed.

Lemma worker_send_sync_calls w msg g :
  worker_send_sync w msg g =
  match recv_sync_handler w with
  | None => Ok (Literal "err: $recvSync not called", w, g)
  | Some handler =>
      let arg := NewFromUtf8 msg in
      let c := enter (EnterCall handler arg) w in
      match exec (Function_Call handler arg (heap (isolate c))) c g with
      | Ok (Returned (VString response), c', g') =>
          Ok (Released (strz (utf8_encode response)), c', g')
      | Ok (Returned _, c', g') =>
          Ok (Literal "err: non-string return value", c', g')
      | Ok (Thrown _, _, _) => Crash EmptyHandleDereference
      | Crash why => Crash why
      | Hang => Hang
      end
  end.
Proof.
  unfold worker_send_sync.
  destruct (recv_sync_handler w) as [handler|]; [|done]. cbv zeta.
  destruct (exec _ _ g) as [[[[v|try_catch] c'] g']| |]; try done;
    by destruct v.
Qed.

(** C8.  A new worker, and so a Worker fresh from [New], has neither
    handler.  After any sequence of registrations (made one by one, or by a
    running script) the async slot holds the handler of the last async
    registration and the sync slot that of the last sync registration, a
    slot with no registration keeping what it held.  [worker_send] and
    [worker_send_sync] then call the handler in the slot and no other: the
    send ends as the call of the last-registered handler ends (its return,
    its exception, its crash or its divergence), it enters the engine by
    that one call, and it calls nothing when the slot is empty. *)
Theorem last_registration_wins :
  (∀ worker_id,
     recv (worker_new worker_id) = None ∧
     recv_sync_handler (worker_new worker_id) = None)
  ∧ (∀ cb syncCB g,
       recv (cWorker (New cb syncCB g).1) = None ∧
       recv_sync_handler (cWorker (New cb syncCB g).1) = None)
  ∧ (∀ rs w, ∃ w',
       register_all rs w = Ok w'
       ∧ (∀ k g, exec (registering rs k) w g = exec k w' g)
       ∧ recv w' = last_async rs (recv w)
       ∧ recv_sync_handler w' = last_sync rs (recv_sync_handler w)
       ∧ (∀ msg g,
            worker_send w' msg g =
            match last_async rs (recv w) with
            | None => Ok (1, set_last_exception "$recv not called" w', g)
            | Some handler =>
                let arg := NewFromUtf8 msg in
                let c := enter (EnterCall handler arg) w' in
                match exec (Function_Call handler arg (heap (isolate c))) c g
                with
                | Ok (Returned _, c', g') => Ok (0, c', g')
                | Ok (Thrown try_catch, c', g') =>
                    Ok (2, set_last_exception (ExceptionString try_catch) c',
                        g')
                | Crash why => Crash why
                | Hang => Hang
                end
            end)
       ∧ (∀ msg g,
            worker_send_sync w' msg g =
            match last_sync rs (recv_sync_handler w) with
            | None => Ok (Literal "err: $recvSync not called", w', g)
            | Some handler =>
                let arg := NewFromUtf8 msg in
                let c := enter (EnterCall handler arg) w' in
                match exec (Function_Call handler arg (heap (isolate c))) c g
                with
                | Ok (Returned (VString response), c', g') =>
                    Ok (Released (strz (utf8_encode response)), c', g')
                | Ok (Returned _, c', g') =>
                    Ok (Literal "err: non-string return value", c', g')
                | Ok (Thrown _, _, _) => Crash EmptyHandleDereference
                | Crash why => Crash why
                | Hang => Hang
                end
            end)
       ∧ (∀ msg g r w'' g',
            worker_send w' msg g = Ok (r, w'', g') →
            entered (isolate w'') =
            entered (isolate w) ++
              match last_async rs (recv w) with
              | Some handler => [EnterCall handler (NewFromUtf8 msg)]
              | None => []
              end)
       ∧ (∀ msg g (ptr : c_str) w'' g',
            worker_send_sync w' msg g = Ok (ptr, w'', g') →
            entered (isolate w'') =
            entered (isolate w) ++
              match last_sync rs (recv_sync_handler w) with
              | Some handler => [EnterCall handler (NewFromUtf8 msg)]
              | None => []
              end)).
Proof.
  split; [done|]. split; [done|].
  intros rs w. eexists. split; [apply register_all_slots|].
  split; [|split; [done|]; split; [done|]; split; [|split; [|split]]].
  - intros k g. by rewrite exec_registering, register_all_slots.
  - intros msg g. by rewrite worker_send_calls.
  - intros msg g. by rewrite worker_send_sync_calls.
  - intros msg g r w'' g' H. by apply worker_send_enters in H.
  - intros msg g ptr w'' g' H. by apply worker_send_sync_enters in H.
Qed.

(** ** The registry *)

Lemma C_int_small z : 0 ≤ z < 2 ^ 31 → C_int z = z.
Proof. intros Hz. unfold C_int. rewrite Z.mod_small; lia. Qed.

Lemma C_int_mod z : C_int z mod 2 ^ 32 = z mod 2 ^ 32.
Proof. wrap_arith. Qed.

(** What Go receives for the identity [New] gave the worker. *)
Lemma as_GoInt_C_int z : as_GoInt (C_int z) = z mod 2 ^ 32.
Proof. apply C_int_mod. Qed.

Lemma as_GoInt_C_int_small z : 0 ≤ z < 2 ^ 32 → as_GoInt (C_int z) = z.
Proof. intros Hz. rewrite as_GoInt_C_int. by apply Z.mod_small. Qed.

Lemma recvCb_nil_dereference msg_s workerId g :
  recvCb msg_s workerId g = Crash NilPointerDereference ↔
  callbacksMap g !! workerId = None.
Proof.
  unfold recvCb. destruct (callbacksMap g !! workerId) as [cbs|]; [|done].
  destruct (cb cbs) as [fn|]; [|done]. by destruct (fn _ _).
Qed.

Lemma recvSyncCb_nil_dereference msg_s workerId g :
  recvSyncCb msg_s workerId g = Crash NilPointerDereference ↔
  callbacksMap g !! workerId = None.
Proof.
  unfold recvSyncCb. destruct (callbacksMap g !! workerId) as [cbs|]; [|done].
  destruct (syncCB cbs) as [fn|]; [|done]. by destruct (fn _ _) as [[? ?]| |].
Qed.

(** C10.  [recvCb] and [recvSyncCb] select a field of the registry lookup's
    result without testing it: the nil dereference happens exactly when the
    registry has no entry for the identity passed.  So a script's [$send] or
    [$sendSync] on a worker for whose identity, as Go receives it, the
    registry has no entry brings the process down, and no error is
    reported.  Such a state exists: once the finalizer that [New] attached
    has run, the entry [New] made is gone and both dispatchers crash on the
    identity that Worker sends. *)
Theorem dispatch_without_entry_crashes :
  (∀ msg_s workerId g,
     (recvCb msg_s workerId g = Crash NilPointerDereference ↔
      callbacksMap g !! workerId = None)
     ∧ (recvSyncCb msg_s workerId g = Crash NilPointerDereference ↔
        callbacksMap g !! workerId = None))
  ∧ (∀ (s : JSString) k k' w g,
       callbacksMap g !! as_GoInt (worker_id w) = None →
       exec (CallSend (VString s) k) w g = Crash NilPointerDereference
       ∧ exec (CallSendSync (VString s) k') w g = Crash NilPointerDereference)
  ∧ (∀ cb syncCB g,
       0 ≤ workerIdSequence g < 2 ^ 32 →
       let W := (New cb syncCB g).1 in
       let g1 := (New cb syncCB g).2 in
       let id := as_GoInt (worker_id (cWorker W)) in
       callbacksMap g1 !! id = Some {| cb := cb; syncCB := syncCB |}
       ∧ ∃ W2 g2,
           finalize W g1 = Ok (W2, g2)
           ∧ callbacksMap g2 !! id = None
           ∧ ∀ msg_s,
               recvCb msg_s id g2 = Crash NilPointerDereference
               ∧ recvSyncCb msg_s id g2 = Crash NilPointerDereference).
Proof.
  split; [|split].
  - intros. split.
    + apply recvCb_nil_dereference.
    + apply recvSyncCb_nil_dereference.
  - intros s k k' w g Hnone. simpl.
    rewrite (proj2 (recvCb_nil_dereference _ _ _) Hnone).
    by rewrite (proj2 (recvSyncCb_nil_dereference _ _ _) Hnone).
  - intros cb0 syncCB0 g Hseq W g1 id. subst W g1 id. simpl.
    rewrite as_GoInt_C_int_small by done.
    rewrite lookup_insert_eq. split; [done|].
    eexists _, _. split; [reflexivity|]. simpl.
    rewrite lookup_delete_eq. split; [done|].
    intros msg_s. split.
    + apply recvCb_nil_dereference. simpl. by rewrite lookup_delete_eq.
    + apply recvSyncCb_nil_dereference. simpl. by rewrite lookup_delete_eq.
Qed.

(** ** The identities of a process *)

(** What the finalizer does when it returns. *)
Lemma finalize_Ok W g W' g' :
  finalize W g = Ok (W', g') →
  disposed (cWorker W) = false
  ∧ W' = set_cWorker (set_disposed true (cWorker W)) W
  ∧ g' = set_callbacksMap (delete (finalizer_id W) (callbacksMap g)) g.
Proof.
  unfold finalize, worker_dispose.
  destruct (disposed (cWorker W)); [done|]. simpl. by intros [= <- <-].
Qed.

Lemma counted_boot u : counted (boot u).
Proof. done. Qed.

Lemma counted_step s p p' :
  counted p → step read_released s p = Some p' → counted p'.
Proof.
  intros [Hids Hseq]. destruct s as [cb0 syncCB0|k op|k]; simpl.
  - intros [= <-]. split; simpl.
    + rewrite length_app. simpl. rewrite Nat.add_1_r, seq_S, fmap_app.
      simpl. by rewrite <-Hids, Hseq.
    + rewrite length_app. simpl. rewrite Hseq, Nat.add_1_r.
      unfold nth_identity. rewrite wrap_int_succ. f_equal. lia.
  - destruct (workers p !! k) as [[W|]|]; try by intros [= <-].
    destruct (host_call _ _ _ _) as [[[reply W'] g']| |] eqn:Hc; try done.
    apply host_call_workerIdSequence in Hc. intros [= <-].
    split; simpl; [done|congruence].
  - destruct (workers p !! k) as [[W|]|]; try by intros [= <-].
    destruct (finalize W (go p)) as [[W2 g2]| |] eqn:Hf; try done.
    apply finalize_Ok in Hf as [_ [_ ->]]. by intros [= <-].
Qed.

Lemma counted_run steps : ∀ p,
  counted p → counted (run_process read_released steps p).
Proof.
  induction steps as [|s steps IH]; intros p Hp; [done|].
  simpl. destruct (step read_released s p) as [p'|] eqn:Hs; [|done].
  by eapply IH, counted_step.
Qed.

(** X17.  The numbers [New] draws from [nextWorkerId], which are the keys
    of the registry on the Go side.  In a process that creates Workers,
    calls into them and lets finalizers run, in any order, they are pairwise
    distinct as long as no more than 2^64 have been drawn: the counter is a
    Go [int], and it never moves back before it wraps. *)
Theorem identities_distinct_before_wrap steps u :
  Z.of_nat (length (issued (run_process read_released steps (boot u))))
    ≤ 2 ^ 64 →
  NoDup (issued (run_process read_released steps (boot u))).
Proof.
  intros Hlen.
  destruct (counted_run steps (boot u) (counted_boot u)) as [Hids _].
  rewrite Hids. apply NoDup_fmap_2_strong; [|apply NoDup_seq].
  intros i j [_ Hi]%elem_of_seq [_ Hj]%elem_of_seq Hij.
  apply wrap_int_inj in Hij; lia.
Qed.

(** ** Script names *)


End BridgeFacts.

(** * The rest of the bridge *)

(** ** Standard output *)






(** ** Heap statistics *)

Lemma C_int_range z : in_c_int (C_int z).
Proof. unfold in_c_int. wrap_arith. Qed.

Lemma C_int_exact z : 0 ≤ z → (C_int z = z ↔ z < 2 ^ 31).
Proof. intros. split; intros; wrap_arith. Qed.

Lemma C_int_negative z : 2 ^ 31 ≤ z < 2 ^ 32 → C_int z = z - 2 ^ 32.
Proof. intros. wrap_arith. Qed.

(** X2.  [GetHeapStatistics] reports [MallocedMemory] as 0 whatever the
    engine says, since its assignment in [worker_get_heap_statistics] is
    commented out.  Every other field is the engine's [size_t] value cut to
    a C [int]: the number reported lies in the C [int] range, it equals the
    engine's value exactly when that value is below 2^31, and a value from
    2^31 up to 2^32 is reported as the negative number 2^32 below it. *)
Theorem heap_statistics_are_truncated heap_statistics :
  MallocedMemory (Worker_GetHeapStatistics heap_statistics) = 0
  ∧ Forall (λ '(reported, actual),
              reported = C_int actual
              ∧ in_c_int reported
              ∧ (0 ≤ actual → (reported = actual ↔ actual < 2 ^ 31))
              ∧ (2 ^ 31 ≤ actual < 2 ^ 32 → reported = actual - 2 ^ 32))
           (reported_sizes heap_statistics).
Proof.
  split; [done|]. unfold reported_sizes. simpl.
  repeat constructor;
    first [apply C_int_range | by apply C_int_exact | by apply C_int_negative].
Qed.

Lemma ExceptionString_ends_in_newline try_catch :
  ∃ body, ExceptionString try_catch = body +:+ nl.
Proof.
  unfold ExceptionString.
  destruct (GetMessage try_catch) as [message|]; cbv zeta.
  - case_decide; eexists; unfold append_cstr at 1; reflexivity.
  - eexists. unfold append_cstr at 1. reflexivity.
Qed.

(** X3.  The diagnostic [ExceptionString] builds holds no NUL byte, so the
    copy [C.GoString] takes of it through [worker_last_exception] is the
    whole text; and the text always ends in a newline. *)
Theorem ExceptionString_survives_the_copy try_catch :
  NoNUL (ExceptionString try_catch)
  ∧ C_GoString (ExceptionString try_catch) = ExceptionString try_catch
  ∧ ∃ body, ExceptionString try_catch = body +:+ nl.
Proof.
  split; [apply NoNUL_ExceptionString|]. split.
  - apply C_GoString_NoNUL, NoNUL_ExceptionString.
  - apply ExceptionString_ends_in_newline.
Qed.

(** X4.  The 20-byte scratch buffer of [ExceptionString] is large enough
    for the decimal text of any C [int]: [snprintf] never truncates a line
    number, and what it writes is the [Itoa] text, free of NUL bytes. *)
Theorem scratch_buffer_suffices n :
  in_c_int n →
  (String.length (Itoa n) < scratchSize)%nat
  ∧ snprintf_i n = Itoa n
  ∧ NoNUL (snprintf_i n).
Proof.
  intros Hn. pose proof (length_Itoa n Hn). split; [unfold scratchSize; lia|].
  rewrite snprintf_i_Itoa by done. split; [done|apply NoNUL_Itoa].
Qed.

Section SendFacts.
Context {engine : Engine} {U : Type}.
Variable read_released : string → string.
Implicit Types (w c : worker) (g : GoState U) (W : Worker).

(** X5.  [Send] to a Worker that has an async handler calls that handler
    once, with the message as a C string turned into a JavaScript string.
    If the call returns, the error is nil, [last_exception] is as before and
    the call is the one new entry into the engine.  If it throws, the error
    is the diagnostic of the exception, which is also stored in
    [last_exception].  A call that brings the process down or never returns
    does so for [Send] too. *)
Theorem Send_with_handler W msg g handler :
  recv (cWorker W) = Some handler →
  let arg := NewFromUtf8 (C_CString msg) in
  let c := enter (EnterCall handler arg) (cWorker W) in
  match exec (Function_Call handler arg (heap (isolate c))) c g with
  | Ok (Returned _, c', g') =>
      Worker_Send W msg g = Ok (None, set_cWorker c' W, g')
      ∧ last_exception c' = last_exception (cWorker W)
      ∧ entered (isolate c') =
          entered (isolate (cWorker W)) ++ [EnterCall handler arg]
  | Ok (Thrown try_catch, c', g') =>
      let diagnostic := ExceptionString try_catch in
      Worker_Send W msg g =
        Ok (errors_New diagnostic,
            set_cWorker (set_last_exception diagnostic c') W, g')
      ∧ entered (isolate c') =
          entered (isolate (cWorker W)) ++ [EnterCall handler arg]
  | Crash why => Worker_Send W msg g = Crash why
  | Hang => Worker_Send W msg g = Hang
  end.
Proof.
  intros Hrecv arg c. unfold Worker_Send, worker_send. rewrite Hrecv.
  cbv zeta. fold arg. fold c.
  change (heap (isolate c)) with (heap (isolate (cWorker W))).
  destruct (exec _ c g) as [[[[v|try_catch] c'] g']| |] eqn:He; simpl;
    try done.
  - apply exec_frame in He as [[_ [Hle Hen]] _]. by rewrite Hle, Hen.
  - apply exec_frame in He as [[_ [_ Hen]] _].
    by rewrite (C_GoString_NoNUL _ (NoNUL_ExceptionString try_catch)), Hen.
Qed.

(** X6.  [worker_send_sync] has no [TryCatch]: when the sync handler's call
    throws, the empty result handle is dereferenced, and [SendSync] brings
    the process down instead of returning a text. *)
Theorem SendSync_throwing_handler_crashes W msg g handler try_catch c' g' :
  recv_sync_handler (cWorker W) = Some handler →
  let arg := NewFromUtf8 (C_CString msg) in
  let c := enter (EnterCall handler arg) (cWorker W) in
  exec (Function_Call handler arg (heap (isolate c))) c g
    = Ok (Thrown try_catch, c', g') →
  Worker_SendSync read_released W msg g = Crash EmptyHandleDereference.
Proof.
  intros H arg c He. unfold Worker_SendSync, worker_send_sync.
  rewrite H. cbv zeta. fold arg. fold c.
  change (heap (isolate c)) with (heap (isolate (cWorker W))) in He.
  change (heap (isolate c)) with (heap (isolate (cWorker W))).
  by rewrite He.
Qed.

(** The return code of an entry point and the last-diagnostic slot. *)
Lemma worker_load_code c source_s name_s lo co sh id dbg url op g r c' g' :
  worker_load c source_s name_s lo co sh id dbg url op g = Ok (r, c', g') →
  (r = 0 ∧ last_exception c' = last_exception c)
  ∨ (r ≠ 0 ∧ NoNUL (last_exception c')).
Proof.
  unfold worker_load.
  destruct (Script_Compile _ _ _) as [try_catch|script].
  - intros [= <- <- <-]. right. split; [done|apply NoNUL_ExceptionString].
  - cbv zeta. destruct (exec _ _ g) as [[[[v|try_catch] c2] g2]| |] eqn:He;
      simpl; try done; intros [= <- <- <-].
    + left. by apply exec_frame in He as [[_ [Hle _]] _].
    + right. split; [done|apply NoNUL_ExceptionString].
Qed.

Lemma worker_send_code c msg g r c' g' :
  worker_send c msg g = Ok (r, c', g') →
  (r = 0 ∧ last_exception c' = last_exception c)
  ∨ (r ≠ 0 ∧ NoNUL (last_exception c')).
Proof.
  unfold worker_send. destruct (recv c) as [f|].
  - cbv zeta. destruct (exec _ _ g) as [[[[v|try_catch] c2] g2]| |] eqn:He;
      simpl; try done; intros [= <- <- <-].
    + left. by apply exec_frame in He as [[_ [Hle _]] _].
    + right. split; [done|apply NoNUL_ExceptionString].
  - intros [= <- <- <-]. by right.
Qed.

(** X8.  After [LoadWithOptions] or [Send] returns a non-nil error, the
    text of that error is exactly what [worker_last_exception] holds for the
    Worker; after a nil error, [worker_last_exception] holds what it held
    before the call. *)
Theorem error_is_last_exception W g :
  (∀ origin code err o W' g',
     Worker_LoadWithOptions W origin code g = Ok (err, o, W', g') →
     match err with
     | Some text => worker_last_exception (cWorker W') = text
     | None => worker_last_exception (cWorker W')
               = worker_last_exception (cWorker W)
     end)
  ∧ (∀ msg err W' g',
       Worker_Send W msg g = Ok (err, W', g') →
       match err with
       | Some text => worker_last_exception (cWorker W') = text
       | None => worker_last_exception (cWorker W')
                 = worker_last_exception (cWorker W)
       end).
Proof.
  split.
  - intros origin code err o W' g'. rewrite Worker_LoadWithOptions_resolved.
    destruct (worker_load _ _ _ _ _ _ _ _ _ _ _) as [[[r c'] g2]| |] eqn:Hl;
      try done.
    simpl. intros [= <- <- <- <-].
    apply worker_load_code in Hl as [[-> Hle]|[Hr Hnul]]; simpl.
    + done.
    + rewrite decide_True by done. unfold errors_New. by rewrite Hnul.
  - intros msg err W' g'. unfold Worker_Send.
    destruct (worker_send _ _ _) as [[[r c'] g2]| |] eqn:Hs; try done.
    simpl.
    apply worker_send_code in Hs as [[-> Hle]|[Hr Hnul]]; simpl.
    + by intros [= <- <- <-].
    + rewrite decide_True by done. intros [= <- <- <-]. simpl.
      by rewrite Hnul.
Qed.
End SendFacts.

Section RoutingFacts.
Context {engine : Engine} {U : Type}.
Variable read_released : string → string.
Implicit Types (w c : worker) (g : GoState U) (W : Worker).
Implicit Types (p : Process U) (u : U).

Lemma New_entry cb syncCB g :
  0 ≤ workerIdSequence g < 2 ^ 31 →
  worker_id (cWorker (New cb syncCB g).1) = workerIdSequence g
  ∧ finalizer_id (New cb syncCB g).1 = workerIdSequence g
  ∧ callbacksMap (New cb syncCB g).2
    = <[workerIdSequence g := {| cb := cb; syncCB := syncCB |}]>
        (callbacksMap g)
  ∧ host (New cb syncCB g).2 = host g.
Proof. intros Hseq. simpl. by rewrite C_int_small. Qed.

(** X9.  After [New(cb, syncCB)], as long as the registry entry made by
    [New] is in place and the identity fits in a C [int], script code on a
    worker carrying that identity reaches the Go callbacks: [$send(s)] calls
    [cb] with the C string of [s] and goes on once [cb] has returned, and
    [$sendSync(s)] calls [syncCB] with it and evaluates to its reply as a
    JavaScript string.  A callback that panics or never returns takes the
    script with it.  If the callback given to [New] is nil, the call panics
    instead. *)
Theorem New_routes_messages cb syncCB g w g' :
  0 ≤ workerIdSequence g < 2 ^ 31 →
  worker_id w = worker_id (cWorker (New cb syncCB g).1) →
  callbacksMap g' = callbacksMap (New cb syncCB g).2 →
  (∀ fn (s : JSString) k,
     cb = Some fn →
     exec (CallSend (VString s) k) w g' =
     match fn (strz (utf8_encode s)) (host g') with
     | Returns u => exec k w (set_host u g')
     | Panics what => Crash (GoPanic what)
     | Blocks => Hang
     end)
  ∧ (∀ fn (s : JSString) k,
       syncCB = Some fn →
       exec (CallSendSync (VString s) k) w g' =
       match fn (strz (utf8_encode s)) (host g') with
       | Returns (res, u) => exec (k (NewFromUtf8 res)) w (set_host u g')
       | Panics what => Crash (GoPanic what)
       | Blocks => Hang
       end)
  ∧ (cb = None →
     ∀ (s : JSString) k,
       exec (CallSend (VString s) k) w g' = Crash NilFuncCall)
  ∧ (syncCB = None →
     ∀ (s : JSString) k,
       exec (CallSendSync (VString s) k) w g' = Crash NilFuncCall).
Proof.
  intros Hseq Hid Hmap.
  destruct (New_entry cb syncCB g Hseq) as [Hw [_ [Hm _]]].
  rewrite Hw in Hid. rewrite Hm in Hmap.
  assert (callbacksMap g' !! as_GoInt (worker_id w)
          = Some {| cb := cb; syncCB := syncCB |}) as Hlook.
  { rewrite Hmap, Hid. unfold as_GoInt.
    rewrite Z.mod_small by lia. by rewrite lookup_insert_eq. }
  split; [|split; [|split]].
  - intros fn s k ->. simpl. unfold recvCb. rewrite Hlook. simpl.
    unfold append_cstr, C_GoString. rewrite sapp_empty_l, strz_idemp.
    by destruct (fn _ _).
  - intros fn s k ->. simpl. unfold recvSyncCb. rewrite Hlook. simpl.
    unfold append_cstr, C_GoString. rewrite sapp_empty_l, strz_idemp.
    by destruct (fn _ _) as [[res u]| |].
  - intros -> s k. simpl. unfold recvCb. by rewrite Hlook.
  - intros -> s k. simpl. unfold recvSyncCb. by rewrite Hlook.
Qed.

(** X10.  The bindings assert the kind of their argument: [$recv] and
    [$recvSync] with anything but a function, [$send] and [$sendSync] with
    anything but a string, abort the process on the failed [assert] rather
    than reporting an error.  The abort is not caught on the way back: a
    [Send] whose handler starts with such a call returns nothing. *)
Theorem bindings_assert_their_argument (v : Value JSString Function) w g :
  (IsFunction v = false →
     (∀ k, exec (CallRecv v k) w g = Crash (AssertFailed "v->IsFunction()"))
     ∧ (∀ k, exec (CallRecvSync v k) w g
             = Crash (AssertFailed "v->IsFunction()")))
  ∧ (IsString v = false →
       (∀ k, exec (CallSend v k) w g = Crash (AssertFailed "v->IsString()"))
       ∧ (∀ k, exec (CallSendSync v k) w g
               = Crash (AssertFailed "v->IsString()")))
  ∧ (∀ W msg handler k,
       recv (cWorker W) = Some handler →
       Function_Call handler (NewFromUtf8 (C_CString msg))
         (heap (isolate (cWorker W))) = CallRecv v k →
       IsFunction v = false →
       Worker_Send W msg g = Crash (AssertFailed "v->IsFunction()")).
Proof.
  split; [|split].
  - intros Hv; split; intros k; by destruct v.
  - intros Hv; split; intros k; by destruct v.
  - intros W msg handler k Hrecv Hcall Hv.
    unfold Worker_Send, worker_send. rewrite Hrecv. cbv zeta.
    change (heap (isolate (enter _ (cWorker W))))
      with (heap (isolate (cWorker W))).
    rewrite Hcall. by destruct v.
Qed.

(** X11.  In a registry with no entry under the next identity, [New]
    changes no entry but its own, and the Worker's finalizer then disposes
    the worker and leaves the registry as it was before [New].  The
    finalizer is not to run twice: on the Worker it has finalized,
    [worker_dispose] acts on released storage, whatever the registry
    holds. *)
Theorem New_then_finalize_restores_registry cb syncCB g :
  callbacksMap g !! workerIdSequence g = None →
  let W := (New cb syncCB g).1 in
  let g1 := (New cb syncCB g).2 in
  (∀ id, id ≠ workerIdSequence g →
         callbacksMap g1 !! id = callbacksMap g !! id)
  ∧ disposed (cWorker W) = false
  ∧ ∃ W2 g2,
      finalize W g1 = Ok (W2, g2)
      ∧ callbacksMap g2 = callbacksMap g
      ∧ disposed (cWorker W2) = true
      ∧ ∀ g3, finalize W2 g3 = Crash UseAfterFree.
Proof.
  intros Hfree W g1. subst W g1. simpl. split; [|split; [done|]].
  - intros id Hid. by rewrite lookup_insert_ne.
  - eexists _, _. split; [reflexivity|]. simpl.
    by rewrite delete_insert_eq, delete_id.
Qed.
End RoutingFacts.

Section ProcessFacts.
Context {engine : Engine} {U : Type}.
Variable read_released : string → string.
Implicit Types (w c : worker) (g : GoState U) (W : Worker).
Implicit Types (p : Process U) (u : U).

Lemma worker_load_worker_id c source_s name_s lo co sh id dbg url op g r c' g' :
  worker_load c source_s name_s lo co sh id dbg url op g = Ok (r, c', g') →
  worker_id c' = worker_id c.
Proof.
  unfold worker_load.
  destruct (Script_Compile _ _ _) as [try_catch|script].
  - by intros [= <- <- <-].
  - cbv zeta. destruct (exec _ _ g) as [[[[v|try_catch] c2] g2]| |] eqn:He;
      simpl; try done; intros [= <- <- <-];
      by apply exec_frame in He as [[? _] _].
Qed.

Lemma worker_send_worker_id c msg g r c' g' :
  worker_send c msg g = Ok (r, c', g') → worker_id c' = worker_id c.
Proof.
  unfold worker_send. destruct (recv c) as [f|].
  - cbv zeta. destruct (exec _ _ g) as [[[[v|try_catch] c2] g2]| |] eqn:He;
      simpl; try done; intros [= <- <- <-];
      by apply exec_frame in He as [[? _] _].
  - by intros [= <- <- <-].
Qed.

Lemma worker_send_sync_worker_id c msg g (ptr : c_str) c' g' :
  worker_send_sync c msg g = Ok (ptr, c', g') → worker_id c' = worker_id c.
Proof.
  unfold worker_send_sync. destruct (recv_sync_handler c) as [f|].
  - cbv zeta. destruct (exec _ _ g) as [[[[v|try_catch] c2] g2]| |] eqn:He;
      simpl; try done.
    apply exec_frame in He as [[? _] _].
    destruct v; by intros [= <- <- <-].
  - by intros [= <- <- <-].
Qed.

Lemma resolved_callbacksMap origin g :
  callbacksMap (resolved origin g).2 = callbacksMap g.
Proof. unfold resolved. by case_decide. Qed.

(** What no host call changes. *)
Lemma host_call_keeps op W g reply W' g' :
  host_call read_released op W g = Ok (reply, W', g') →
  finalizer_id W' = finalizer_id W
  ∧ worker_id (cWorker W') = worker_id (cWorker W)
  ∧ workerIdSequence g' = workerIdSequence g
  ∧ callbacksMap g' = callbacksMap g
  ∧ match op with
    | DoLoadWithOptions origin _ =>
        scriptSequence g' = scriptSequence (resolved origin g).2
    | _ => scriptSequence g' = scriptSequence g
    end.
Proof.
  destruct op as [origin code|msg|msg]; simpl.
  - rewrite Worker_LoadWithOptions_resolved.
    destruct (worker_load _ _ _ _ _ _ _ _ _ _ _) as [[[r c'] g2]| |] eqn:Hl;
      try done.
    simpl. intros [= <- <- <-].
    pose proof (worker_load_worker_id _ _ _ _ _ _ _ _ _ _ _ _ _ _ Hl).
    apply worker_load_frame in Hl as [? [? ?]].
    rewrite <-(resolved_workerIdSequence origin g),
      <-(resolved_callbacksMap origin g). done.
  - unfold Worker_Send.
    destruct (worker_send _ _ _) as [[[r c'] g2]| |] eqn:Hs; try done.
    pose proof (worker_send_worker_id _ _ _ _ _ _ Hs).
    apply worker_send_frame in Hs as [? [? ?]].
    simpl. case_decide; by intros [= <- <- <-].
  - unfold Worker_SendSync.
    destruct (worker_send_sync _ _ _) as [[[ptr c'] g2]| |] eqn:Hs; try done.
    pose proof (worker_send_sync_worker_id _ _ _ _ _ _ Hs).
    apply worker_send_sync_frame in Hs as [? [? ?]].
    simpl. by intros [= <- <- <-].
Qed.

(** X12.  No host call on a Worker ([LoadWithOptions], [Send], [SendSync]),
    whatever the script code registers or sends meanwhile, changes the
    identity the Worker carries: neither the one its finalizer has captured
    on the Go side nor the one in the C struct; a script-to-host message of
    the Worker is dispatched after the call as it would have been before
    it. *)
Theorem host_calls_keep_identities op W g reply W' g' :
  host_call read_released op W g = Ok (reply, W', g') →
  finalizer_id W' = finalizer_id W
  ∧ worker_id (cWorker W') = worker_id (cWorker W)
  ∧ ∀ (v : Value JSString Function) g2,
      Send v (cWorker W') g2 = Send v (cWorker W) g2
      ∧ SendSync v (cWorker W') g2 = SendSync v (cWorker W) g2.
Proof.
  intros H. apply host_call_keeps in H as [Hf [Hw _]].
  split; [done|]. split; [done|]. intros v g2.
  unfold Send, SendSync. by rewrite Hw.
Qed.

(** *** Origins and script names *)



Lemma wrap_int_add_l a b : wrap_int (wrap_int a + b) = wrap_int (a + b).
Proof. wrap_arith. Qed.

Lemma draw_script_names_S n g :
  draw_script_names (S n) g =
  (("VM" +:+ Itoa (scriptSequence g))
     :: (draw_script_names n
           (set_scriptSequence (wrap_int (scriptSequence g + 1)) g)).1,
   (draw_script_names n
      (set_scriptSequence (wrap_int (scriptSequence g + 1)) g)).2).
Proof.
  cbn [draw_script_names]. unfold nextScriptName. cbv zeta.
  by destruct (draw_script_names n _).
Qed.

Lemma draw_script_names_spec n : ∀ g,
  wrap_int (scriptSequence g) = scriptSequence g →
  (draw_script_names n g).1 =
    (λ i : nat, "VM" +:+ Itoa (wrap_int (scriptSequence g + Z.of_nat i)))
      <$> seq 0 n
  ∧ scriptSequence (draw_script_names n g).2
    = wrap_int (scriptSequence g + Z.of_nat n).
Proof.
  induction n as [|n IH]; intros g Hg.
  - simpl. split; [done|]. by rewrite Z.add_0_r, Hg.
  - rewrite draw_script_names_S.
    destruct (IH (set_scriptSequence (wrap_int (scriptSequence g + 1)) g))
      as [Hnames Hseq].
    { simpl. wrap_arith. }
    cbn [fst snd]. rewrite Hnames, Hseq. cbn [scriptSequence set_scriptSequence].
    split.
    + cbn [seq fmap list_fmap]. f_equal; [by rewrite Z.add_0_r, Hg|].
      rewrite <-seq_shift, <-list_fmap_compose.
      apply list_fmap_ext. intros _ i _. simpl.
      rewrite wrap_int_add_l. do 3 f_equal. lia.
    + rewrite wrap_int_add_l. f_equal. lia.
Qed.

(** X14.  Starting from a fresh process, the names drawn by [n] calls of
    [nextScriptName] are [VM0], [VM1], ... in order (as long as the index is
    below 2^63), none is empty, and they are pairwise distinct as long as at
    most 2^64 are drawn. *)
Theorem script_names_are_numbered_and_distinct (n : nat) u :
  let names := (draw_script_names n (process_start u)).1 in
  (∀ i : nat, (i < n)%nat → Z.of_nat i < 2 ^ 63 →
              names !! i = Some ("VM" +:+ Itoa (Z.of_nat i)))
  ∧ (Z.of_nat n ≤ 2 ^ 64 → NoDup names)
  ∧ Forall (λ name, name ≠ EmptyString) names
  ∧ length names = n.
Proof.
  intros names.
  destruct (draw_script_names_spec n (process_start u)) as [Hnames _];
    [done|].
  subst names. rewrite Hnames. simpl scriptSequence.
  split; [|split; [|split]].
  - intros i Hi Hsmall. rewrite list_lookup_fmap, lookup_seq_lt by done.
    simpl. by rewrite wrap_int_small by lia.
  - intros Hn. apply NoDup_fmap_2_strong; [|apply NoDup_seq].
    intros i j [_ Hi]%elem_of_seq [_ Hj]%elem_of_seq Hij.
    apply VM_name_injective, wrap_int_inj in Hij; lia.
  - apply Forall_fmap, Forall_forall. by intros i _.
  - by rewrite length_fmap, length_seq.
Qed.
End ProcessFacts.

Section RegistryInvariant.
Context {engine : Engine} {U : Type}.
Variable read_released : string → string.
Implicit Types (w c : worker) (g : GoState U) (W : Worker).
Implicit Types (p : Process U) (u : U).

Lemma counted_NoDup p :
  counted p → Z.of_nat (length (issued p)) ≤ 2 ^ 64 → NoDup (issued p).
Proof.
  intros [Hids _] Hlen. rewrite Hids.
  apply NoDup_fmap_2_strong; [|apply NoDup_seq].
  intros i j [_ Hi]%elem_of_seq [_ Hj]%elem_of_seq Hij.
  apply wrap_int_inj in Hij; lia.
Qed.

Lemma step_issued_grows s p p' :
  step read_released s p = Some p' →
  (length (issued p) ≤ length (issued p'))%nat.
Proof.
  destruct s as [cb0 syncCB0|k op|k]; simpl.
  - intros [= <-]. simpl. rewrite length_app. lia.
  - destruct (workers p !! k) as [[W|]|]; try by intros [= <-].
    destruct (host_call _ _ _ _) as [[[reply W'] g']| |]; try done.
    by intros [= <-].
  - destruct (workers p !! k) as [[W|]|]; try by intros [= <-].
    destruct (finalize W (go p)) as [[W2 g2]| |]; try done.
    by intros [= <-].
Qed.

Lemma run_issued_grows steps : ∀ p,
  (length (issued p) ≤ length (issued (run_process read_released steps p)))%nat.
Proof.
  induction steps as [|s steps IH]; intros p; [done|]. simpl.
  destruct (step read_released s p) as [p'|] eqn:Hs; [|done].
  etrans; [by eapply step_issued_grows|apply IH].
Qed.

Lemma tracked_step s p p' :
  NoDup (issued p) →
  workers_keep_ids p → registry_tracks_live p →
  step read_released s p = Some p' →
  workers_keep_ids p' ∧ registry_tracks_live p'.
Proof.
  intros Hnd [Hlen Hids] Hreg. destruct s as [cb0 syncCB0|k op|k]; simpl.
  - intros [= <-]. split.
    + split; simpl; [rewrite !length_app; simpl; lia|].
      intros k W Hk. apply lookup_app_Some in Hk as [Hk|[Hge Hk]].
      * destruct (Hids k W Hk) as [Hi Hw]. split; [|done].
        by apply lookup_app_l_Some.
      * apply list_lookup_singleton_Some in Hk as [Hk0 [= <-]]. simpl.
        split; [|done]. rewrite lookup_app_r by lia.
        replace (k - length (issued p))%nat with O by lia. done.
    + intros id. simpl. rewrite lookup_insert_is_Some. split.
      * intros [<-|[Hne HS]].
        -- eexists (length (workers p)), _. split.
           ++ rewrite lookup_app_r by lia. by rewrite Nat.sub_diag.
           ++ done.
        -- apply Hreg in HS as [k [W [Hk Hf]]]. exists k, W.
           split; [|done]. by apply lookup_app_l_Some.
      * intros [k [W [Hk Hf]]].
        apply lookup_app_Some in Hk as [Hk|[Hge Hk]].
        -- destruct (decide (workerIdSequence (go p) = id)); [by left|].
           right. split; [done|]. apply Hreg. by exists k, W.
        -- apply list_lookup_singleton_Some in Hk as [Hk0 [= <-]].
           left. by rewrite <-Hf.
  - destruct (workers p !! k) as [[W|]|] eqn:Hk; try by intros [= <-].
    destruct (host_call _ _ _ _) as [[[reply W'] g']| |] eqn:Hc; try done.
    intros [= <-].
    apply host_call_keeps in Hc as [Hf [Hw [_ [Hm _]]]].
    destruct (Hids k W Hk) as [Hik Hwk].
    split.
    + split; simpl; [by rewrite length_insert|].
      intros k' W2 Hk'. destruct (decide (k = k')) as [<-|Hne].
      * rewrite list_lookup_insert_eq in Hk' by (by eapply lookup_lt_Some).
        injection Hk' as <-. by rewrite Hf, Hw.
      * rewrite list_lookup_insert_ne in Hk' by done. by apply Hids.
    + intros id. simpl. rewrite Hm, (Hreg id). split.
      * intros [k' [W2 [Hk' Hf2]]]. destruct (decide (k = k')) as [<-|Hne].
        -- exists k, W'. rewrite list_lookup_insert_eq
             by (by eapply lookup_lt_Some).
           split; [done|]. rewrite Hk in Hk'. injection Hk' as <-. congruence.
        -- exists k', W2. by rewrite list_lookup_insert_ne.
      * intros [k' [W2 [Hk' Hf2]]]. destruct (decide (k = k')) as [<-|Hne].
        -- rewrite list_lookup_insert_eq in Hk'
             by (by eapply lookup_lt_Some).
           injection Hk' as <-. exists k, W. split; [done|]. congruence.
        -- rewrite list_lookup_insert_ne in Hk' by done. by exists k', W2.
  - destruct (workers p !! k) as [[W|]|] eqn:Hk; try by intros [= <-].
    destruct (finalize W (go p)) as [[Wd gd]| |] eqn:Hfin; try done.
    apply finalize_Ok in Hfin as [_ [_ ->]].
    intros [= <-]. destruct (Hids k W Hk) as [Hik Hwk]. split.
    + split; simpl; [by rewrite length_insert|].
      intros k' W2 Hk'. destruct (decide (k = k')) as [<-|Hne].
      * rewrite list_lookup_insert_eq in Hk' by (by eapply lookup_lt_Some).
        done.
      * rewrite list_lookup_insert_ne in Hk' by done. by apply Hids.
    + intros id. simpl. rewrite lookup_delete_is_Some, (Hreg id). split.
      * intros [Hne [k' [W2 [Hk' Hf2]]]]. exists k', W2. split; [|done].
        rewrite list_lookup_insert_ne; [done|]. intros <-.
        rewrite Hk in Hk'. injection Hk' as <-. done.
      * intros [k' [W2 [Hk' Hf2]]]. destruct (decide (k = k')) as [<-|Hne].
        -- rewrite list_lookup_insert_eq in Hk'
             by (by eapply lookup_lt_Some).
           done.
        -- rewrite list_lookup_insert_ne in Hk' by done.
           split; [|by exists k', W2].
           intros Heq. apply Hne.
           destruct (Hids k' W2 Hk') as [Hik' _].
           apply (NoDup_lookup _ k k' (finalizer_id W) Hnd); [done|].
           by rewrite Hik', Hf2, Heq.
Qed.

Lemma tracked_run steps : ∀ p,
  counted p → workers_keep_ids p → registry_tracks_live p →
  Z.of_nat (length (issued (run_process read_released steps p))) ≤ 2 ^ 64 →
  workers_keep_ids (run_process read_released steps p)
  ∧ registry_tracks_live (run_process read_released steps p).
Proof.
  induction steps as [|s steps IH]; intros p Hc Hk Hr Hlen; [done|].
  simpl in *. destruct (step read_released s p) as [p'|] eqn:Hs; [|done].
  pose proof (run_issued_grows steps p').
  pose proof (step_issued_grows _ _ _ Hs).
  destruct (tracked_step s p p') as [Hk' Hr']; try done.
  { apply counted_NoDup; [done|lia]. }
  apply IH; try done. by eapply counted_step.
Qed.

Lemma tracked_boot u :
  workers_keep_ids (boot u) ∧ registry_tracks_live (boot u).
Proof.
  split.
  - split; [done|]. intros k W Hk. simpl in Hk. by rewrite lookup_nil in Hk.
  - intros id. simpl. rewrite lookup_empty. split.
    + by intros [? ?].
    + intros [k [W [Hk _]]]. simpl in Hk. by rewrite lookup_nil in Hk.
Qed.


(** X16.  In a process that has created at most 2^31 Workers, the [k]-th
    Worker created, while not finalized, carries identity [k] on the Go side
    and on the C side, the registry has its entry, and neither [recvCb] nor
    [recvSyncCb] called with its identity dereferences a nil registry
    entry. *)
Theorem live_worker_is_always_routable steps u k W :
  let p := run_process read_released steps (boot u) in
  Z.of_nat (length (issued p)) ≤ 2 ^ 31 →
  workers p !! k = Some (Some W) →
  worker_id (cWorker W) = Z.of_nat k
  ∧ finalizer_id W = Z.of_nat k
  ∧ is_Some (callbacksMap (go p) !! worker_id (cWorker W))
  ∧ (∀ msg_s, recvCb msg_s (worker_id (cWorker W)) (go p)
              ≠ Crash NilPointerDereference)
  ∧ (∀ msg_s, recvSyncCb msg_s (worker_id (cWorker W)) (go p)
              ≠ Crash NilPointerDereference).
Proof.
  intros p Hlen HW.
  destruct (tracked_boot u) as [Hk Hr].
  destruct (tracked_run steps (boot u) (counted_boot u) Hk Hr)
    as [[Hl Hids] Hreg]; [fold p; lia|]. fold p in Hl, Hids, Hreg.
  destruct (counted_run read_released steps (boot u) (counted_boot u))
    as [Hcount _]. fold p in Hcount.
  destruct (Hids k W HW) as [Hik Hwk].
  assert (k < length (issued p))%nat as Hlt by (by eapply lookup_lt_Some).
  assert (finalizer_id W = Z.of_nat k) as Hf.
  { rewrite Hcount, list_lookup_fmap, lookup_seq_lt in Hik by done.
    injection Hik as <-. simpl. unfold nth_identity.
    apply wrap_int_small. lia. }
  assert (worker_id (cWorker W) = Z.of_nat k) as Hw.
  { rewrite Hwk, Hf. apply C_int_small. lia. }
  assert (is_Some (callbacksMap (go p) !! worker_id (cWorker W))) as HS.
  { apply Hreg. exists k, W. split; [done|]. congruence. }
  split; [done|]. split; [done|]. split; [done|]. split.
  - intros msg_s Hcrash. apply recvCb_nil_dereference in Hcrash.
    rewrite Hcrash in HS. by destruct HS.
  - intros msg_s Hcrash. apply recvSyncCb_nil_dereference in Hcrash.
    rewrite Hcrash in HS. by destruct HS.
Qed.
(** *** The identity a Worker carries *)

Lemma kept_step s p p' :
  workers_keep_ids p → step read_released s p = Some p' →
  workers_keep_ids p'.
Proof.
  intros [Hlen Hids]. destruct s as [cb0 syncCB0|k op|k]; simpl.
  - intros [= <-]. split; simpl; [rewrite !length_app; simpl; lia|].
    intros k W Hk. apply lookup_app_Some in Hk as [Hk|[Hge Hk]].
    + destruct (Hids k W Hk) as [Hi Hw]. split; [|done].
      by apply lookup_app_l_Some.
    + apply list_lookup_singleton_Some in Hk as [Hk0 [= <-]]. simpl.
      split; [|done]. rewrite lookup_app_r by lia.
      replace (k - length (issued p))%nat with O by lia. done.
  - destruct (workers p !! k) as [[W|]|] eqn:Hk; try by intros [= <-].
    destruct (host_call _ _ _ _) as [[[reply W'] g']| |] eqn:Hc; try done.
    intros [= <-].
    apply host_call_keeps in Hc as [Hf [Hw _]].
    destruct (Hids k W Hk) as [Hik Hwk].
    split; simpl; [by rewrite length_insert|].
    intros k' W2 Hk'. destruct (decide (k = k')) as [<-|Hne].
    + rewrite list_lookup_insert_eq in Hk' by (by eapply lookup_lt_Some).
      injection Hk' as <-. by rewrite Hf, Hw.
    + rewrite list_lookup_insert_ne in Hk' by done. by apply Hids.
  - destruct (workers p !! k) as [[W|]|] eqn:Hk; try by intros [= <-].
    destruct (finalize W (go p)) as [[Wd gd]| |] eqn:Hfin; try done.
    intros [= <-]. split; simpl; [by rewrite length_insert|].
    intros k' W2 Hk'. destruct (decide (k = k')) as [<-|Hne].
    + rewrite list_lookup_insert_eq in Hk' by (by eapply lookup_lt_Some).
      done.
    + rewrite list_lookup_insert_ne in Hk' by done. by apply Hids.
Qed.

Lemma kept_run steps : ∀ p,
  workers_keep_ids p → workers_keep_ids (run_process read_released steps p).
Proof.
  induction steps as [|s steps IH]; intros p Hp; [done|].
  simpl. destruct (step read_released s p) as [p'|] eqn:Hs; [|done].
  by eapply IH, kept_step.
Qed.

Lemma C_int_wrap_int z : C_int (wrap_int z) = C_int z.
Proof. wrap_arith. Qed.

Lemma C_int_repeats z : C_int (z + 2 ^ 32) = C_int z.
Proof. wrap_arith. Qed.

(** The identities of the [k]-th Worker of a process, counting from 0. *)
Lemma identities_of_kth steps u (k : nat) W :
  workers (run_process read_released steps (boot u)) !! k = Some (Some W) →
  finalizer_id W = wrap_int (Z.of_nat k)
  ∧ worker_id (cWorker W) = C_int (Z.of_nat k).
Proof.
  intros HW. set (p := run_process read_released steps (boot u)) in *.
  destruct (kept_run steps (boot u) (proj1 (tracked_boot u))) as [Hl Hids].
  fold p in Hl, Hids.
  destruct (counted_run read_released steps (boot u) (counted_boot u))
    as [Hcount _]. fold p in Hcount.
  destruct (Hids k W HW) as [Hik Hwk].
  assert (k < length (issued p))%nat as Hlt by (by eapply lookup_lt_Some).
  rewrite Hcount, list_lookup_fmap, lookup_seq_lt in Hik by done.
  injection Hik as Hf. simpl in Hf. unfold nth_identity in Hf.
  split; [done|]. by rewrite Hwk, <-Hf, C_int_wrap_int.
Qed.

(** C7.  The identity [New] draws is a Go [int], but the identity the
    Worker carries, the one its script-to-host messages are dispatched
    under, is that number cut to a C [int].  Whatever the process has done
    in between (creations, host calls, finalizer runs), the [k]-th Worker
    created carries the C [int] of [k]: a Worker created 2^32 creations
    after another one carries the very same identity, although [New] drew
    two different numbers for them, and Go dispatches the messages of the
    two in the same way. *)
Theorem carried_identity_repeats steps u (k k' : nat) W W' :
  let p := run_process read_released steps (boot u) in
  workers p !! k = Some (Some W) →
  workers p !! k' = Some (Some W') →
  Z.of_nat k' = Z.of_nat k + 2 ^ 32 →
  worker_id (cWorker W) = C_int (Z.of_nat k)
  ∧ worker_id (cWorker W') = worker_id (cWorker W)
  ∧ (Z.of_nat k' < 2 ^ 63 →
     finalizer_id W = Z.of_nat k ∧ finalizer_id W' = Z.of_nat k + 2 ^ 32)
  ∧ ∀ (v : Value JSString Function) g,
      Send v (cWorker W') g = Send v (cWorker W) g
      ∧ SendSync v (cWorker W') g = SendSync v (cWorker W) g.
Proof.
  intros p HW HW' Hk.
  destruct (identities_of_kth steps u k W HW) as [Hf Hw].
  destruct (identities_of_kth steps u k' W' HW') as [Hf' Hw'].
  assert (worker_id (cWorker W') = worker_id (cWorker W)) as Hsame.
  { by rewrite Hw, Hw', Hk, C_int_repeats. }
  split; [done|]. split; [done|]. split.
  - intros Hsmall. rewrite Hf, Hf', Hk.
    by rewrite !wrap_int_small by lia.
  - intros v g. unfold Send, SendSync. by rewrite Hsame.
Qed.

(** *** A process that creates 2^32 + 1 Workers *)

Lemma churn_round p rest :
  callbacksMap (go p) !! workerIdSequence (go p) = None →
  run_process read_released
    (Create None None :: Collect (length (workers p)) :: rest) p
  = run_process read_released rest
      {| go := set_workerIdSequence
                 (wrap_int (workerIdSequence (go p) + 1)) (go p);
         workers := workers p ++ [None];
         issued := issued p ++ [workerIdSequence (go p)] |}.
Proof.
  intros Hfresh.
  change (run_process read_released
            (Create None None :: Collect (length (workers p)) :: rest) p)
    with (match step read_released (Collect (length (workers p)))
                  {| go := (New None None (go p)).2;
                     workers := workers p ++ [Some (New None None (go p)).1];
                     issued := issued p
                               ++ [finalizer_id (New None None (go p)).1] |}
          with
          | Some p' => run_process read_released rest p'
          | None => {| go := (New None None (go p)).2;
                       workers := workers p ++ [Some (New None None (go p)).1];
                       issued := issued p
                                 ++ [finalizer_id (New None None (go p)).1] |}
          end).
  set (W := (New None None (go p)).1).
  assert ((workers p ++ [Some W]) !! length (workers p) = Some (Some W))
    as Hlk by (by rewrite lookup_app_r, Nat.sub_diag).
  unfold step. cbn [workers go issued]. rewrite Hlk.
  subst W. simpl. f_equal. f_equal.
  - rewrite delete_insert_eq, delete_id by done. by destruct (go p).
  - rewrite insert_app_r_alt, Nat.sub_diag by done. done.
Qed.

Lemma run_churn (n : nat) : ∀ p rest,
  wrap_int (workerIdSequence (go p)) = workerIdSequence (go p) →
  (∀ i : nat, (i < n)%nat →
     callbacksMap (go p)
       !! wrap_int (workerIdSequence (go p) + Z.of_nat i) = None) →
  ∃ p1,
    run_process read_released (churn (length (workers p)) n ++ rest) p
      = run_process read_released rest p1
    ∧ workers p1 = workers p ++ replicate n None
    ∧ workerIdSequence (go p1)
      = wrap_int (workerIdSequence (go p) + Z.of_nat n)
    ∧ callbacksMap (go p1) = callbacksMap (go p)
    ∧ host (go p1) = host (go p).
Proof.
  induction n as [|n IH]; intros p rest Hc Hfresh.
  - exists p. simpl. by rewrite app_nil_r, Z.add_0_r.
  - assert (callbacksMap (go p) !! workerIdSequence (go p) = None) as H0.
    { specialize (Hfresh O ltac:(lia)). simpl in Hfresh.
      by rewrite Z.add_0_r, Hc in Hfresh. }
    cbn [churn app]. rewrite churn_round by done.
    set (p2 := {| go := _; workers := _; issued := _ |}).
    destruct (IH p2 rest) as [p1 [Hrun [Hws [Hseq [Hmap Hhost]]]]].
    + subst p2. simpl. wrap_arith.
    + intros i Hi. subst p2. simpl. rewrite wrap_int_add_l.
      replace (workerIdSequence (go p) + 1 + Z.of_nat i)
        with (workerIdSequence (go p) + Z.of_nat (S i)) by lia.
      apply Hfresh. lia.
    + exists p1. split; [|split; [|split; [|split]]].
      * rewrite <-Hrun. subst p2. simpl.
        by rewrite length_app, Nat.add_1_r.
      * rewrite Hws. subst p2. simpl. by rewrite <-app_assoc.
      * rewrite Hseq. subst p2. simpl. rewrite wrap_int_add_l. f_equal. lia.
      * rewrite Hmap. by subst p2.
      * rewrite Hhost. by subst p2.
Qed.
(** One Worker stays alive while 2^32 - 1 others come and go; then one more
    is created. *)
Lemma identities_after_churn (N : nat) u cbA syncA cbB syncB :
  Z.of_nat N = 2 ^ 32 →
  let p := run_process read_released
             (Create cbA syncA :: churn 1 (N - 1) ++ [Create cbB syncB])
             (boot u) in
  workers p !! O = Some (Some (New cbA syncA (process_start u)).1)
  ∧ (∃ WN, workers p !! N = Some (Some WN))
  ∧ callbacksMap (go p) !! 0 = Some {| cb := cbA; syncCB := syncA |}
  ∧ callbacksMap (go p) !! (2 ^ 32) = Some {| cb := cbB; syncCB := syncB |}
  ∧ host (go p) = u.
Proof.
  intros HN p.
  set (pa := {| go := (New cbA syncA (process_start u)).2;
                workers := [Some (New cbA syncA (process_start u)).1];
                issued := [finalizer_id (New cbA syncA (process_start u)).1]
             |}).
  assert (p = run_process read_released
                (churn (length (workers pa)) (N - 1) ++ [Create cbB syncB])
                pa) as Hp by done.
  destruct (run_churn (N - 1) pa [Create cbB syncB])
    as [p1 [Hrun [Hws [Hseq [Hmap Hhost]]]]].
  - done.
  - intros i Hi. subst pa. simpl. change (wrap_int (0 + 1)) with 1.
    rewrite wrap_int_small by lia.
    rewrite lookup_insert_ne by lia. done.
  - rewrite Hrun in Hp. simpl in Hp.
    assert (workerIdSequence (go p1) = 2 ^ 32) as Hseq'.
    { rewrite Hseq. subst pa. simpl. change (wrap_int (0 + 1)) with 1.
      rewrite wrap_int_small by lia. lia. }
    assert (length (workers p1) = N) as Hlen.
    { rewrite Hws, length_app, length_replicate. subst pa. simpl. lia. }
    rewrite Hp. simpl. rewrite Hseq', Hmap, Hhost, Hws.
    split; [done|]. split; [|split; [|split]].
    + eexists. rewrite <-Hws, lookup_app_r by lia.
      by rewrite Hlen, Nat.sub_diag.
    + rewrite lookup_insert_ne by done. subst pa. simpl.
      by rewrite lookup_insert_eq.
    + by rewrite lookup_insert_eq.
    + by subst pa.
Qed.
End RegistryInvariant.

(** * Runs on the sample engine *)

(** C6 on a syntax error reported at [main.js], line 1, column 8. *)
Lemma ExceptionString_format_witness :
  GetMessage Sample.syntax_error ≠ None
  ∧ ExceptionString Sample.syntax_error =
      "main.js:1" +:+ nl +:+
      "var x = ;" +:+ nl +:+
      "        ^" +:+ nl +:+
      "SyntaxError: Unexpected token ;" +:+ nl
  ∧ ExceptionString Sample.bare = "out of luck" +:+ nl.
Proof.
  split; [done|]. split.
  - destruct (ExceptionString_format Sample.syntax_error) as [_ [H _]].
    destruct (H _ eq_refl) as [-> _]; [unfold in_c_int; simpl; lia|].
    reflexivity.
  - destruct (ExceptionString_format Sample.bare) as [H _].
    rewrite H; reflexivity.
Defined.

(** C6 does not hold of every fault: a fault message with a NUL byte in it
    is printed up to that byte, and a stack trace that exists but starts
    with a NUL byte leaves the last line empty. *)
Lemma ExceptionString_cuts_at_NUL :
  Exception Run.nul_fault = Some (String "E" (String NUL "rest"))
  ∧ GetMessage Run.nul_fault = None
  ∧ ExceptionString Run.nul_fault = "E" +:+ nl
  ∧ ExceptionString Run.nul_fault ≠ String "E" (String NUL "rest") +:+ nl
  ∧ StackTrace Run.nul_trace = Some (String NUL "trace")
  ∧ ExceptionString Run.nul_trace =
      "main.js:1" +:+ nl +:+
      "throw e" +:+ nl +:+
      "^^^^^" +:+ nl +:+
      nl
  ∧ ExceptionString Run.nul_trace ≠
      "main.js:1" +:+ nl +:+
      "throw e" +:+ nl +:+
      "^^^^^" +:+ nl +:+
      String NUL "trace" +:+ nl.
Proof. repeat split; done. Qed.


(** C3 on a Worker that has loaded nothing. *)
Lemma Send_without_handler_witness :
  recv (cWorker Sample.fresh.1) = None
  ∧ Worker_Send Sample.fresh.1 "ping" Sample.fresh.2
    = Ok (errors_New "$recv not called",
          set_cWorker
            (set_last_exception "$recv not called" (cWorker Sample.fresh.1))
            Sample.fresh.1,
          Sample.fresh.2).
Proof.
  split; [reflexivity|].
  exact (proj1 (Send_without_handler Sample.intact Sample.fresh.1 "ping"
                  Sample.fresh.2 eq_refl)).
Defined.

(** C4 on a Worker that has loaded nothing. *)
Lemma SendSync_without_handler_witness :
  recv_sync_handler (cWorker Sample.fresh.1) = None
  ∧ Worker_SendSync Sample.intact Sample.fresh.1 "ping" Sample.fresh.2
    = Ok ("err: $recvSync not called", Sample.fresh.1, Sample.fresh.2).
Proof.
  split; [reflexivity|].
  exact (proj1 (SendSync_without_handler Sample.intact Sample.fresh.1 "ping"
                  Sample.fresh.2 eq_refl)).
Defined.

(** C5 on a Worker whose sync handler returns 42. *)
Lemma SendSync_non_string_reply_witness :
  recv_sync_handler (cWorker Sample.numeric.1) = Some Sample.FortyTwo
  ∧ ∃ c',
      Worker_SendSync Sample.intact Sample.numeric.1 "ping" Sample.numeric.2
      = Ok ("err: non-string return value",
            set_cWorker c' Sample.numeric.1, Sample.numeric.2).
Proof.
  split; [reflexivity|]. eexists.
  apply (SendSync_non_string_reply Sample.intact Sample.numeric.1 "ping"
           Sample.numeric.2 Sample.FortyTwo (VNumber 42));
    reflexivity.
Defined.

(** C1 on a message of 16 bytes, which [std::string] keeps on the heap: the
    echoing handler is sent the message, and what [SendSync] returns is what
    the allocator left in the freed buffer. *)
Lemma SendSync_returns_released_storage_witness :
  recv_sync_handler (cWorker Sample.ready.1) = Some Sample.Echo
  ∧ NoNUL "0123456789abcdef"
  ∧ (∃ W',
       Worker_SendSync Run.reclaimed Sample.ready.1 "0123456789abcdef"
         Sample.ready.2
       = Ok (Run.reclaimed "0123456789abcdef", W', Sample.ready.2))
  ∧ Run.reclaimed "0123456789abcdef" ≠ "0123456789abcdef".
Proof.
  split; [reflexivity|]. split; [reflexivity|]. split; [|done].
  destruct (SendSync_returns_released_storage Run.reclaimed Sample.ready.1
              "0123456789abcdef" Sample.ready.2 Sample.Echo)
    as [W' [H _]];
    [reflexivity|intros s h; by exists h|reflexivity..|].
  by exists W'.
Defined.

(** X17 on three creations with a load and a finalizer run in between. *)
Lemma identities_distinct_before_wrap_witness :
  NoDup (issued (run_process Sample.intact
           [Create (Some Sample.on_message) (Some Sample.on_request);
            Use 0 (DoLoadWithOptions None "var x = ;");
            Create None None;
            Collect 0;
            Create None (Some Sample.on_request)]
           (boot [])))
  ∧ issued (run_process Sample.intact
           [Create (Some Sample.on_message) (Some Sample.on_request);
            Use 0 (DoLoadWithOptions None "var x = ;");
            Create None None;
            Collect 0;
            Create None (Some Sample.on_request)]
           (boot [])) = [0; 1; 2].
Proof.
  split; [|reflexivity].
  apply (identities_distinct_before_wrap Sample.intact). vm_compute. done.
Defined.

(** C7 on a process that creates 2^32 + 1 Workers: the first stays alive,
    2^32 - 1 others are created and collected one after the other, and one
    more is created, with nil callbacks.  The last Worker carries the
    identity of the first, 0, although [New] drew 2^32 for it, and a
    [$send] of its script reaches the callback of the first Worker. *)
Lemma carried_identity_repeats_witness :
  ∃ p W0 WN g',
    p = run_process Sample.intact
          (Create (Some Sample.on_message) None
             :: churn 1 (Z.to_nat (2 ^ 32) - 1) ++ [Create None None])
          (boot ([] : Sample.inbox))
    ∧ workers p !! O = Some (Some W0)
    ∧ workers p !! Z.to_nat (2 ^ 32) = Some (Some WN)
    ∧ worker_id (cWorker W0) = 0
    ∧ worker_id (cWorker WN) = 0
    ∧ finalizer_id W0 = 0
    ∧ finalizer_id WN = 2 ^ 32
    ∧ callbacksMap (go p) !! (2 ^ 32) = Some {| cb := None; syncCB := None |}
    ∧ Send (VString "hi") (cWorker WN) (go p) = Ok g'
    ∧ host g' = ["hi"].
Proof.
  pose proof (Z2Nat.id (2 ^ 32) ltac:(done)) as HN.
  generalize dependent (Z.to_nat (2 ^ 32)). intros N HN.
  destruct (@identities_after_churn Sample.engine Sample.inbox Sample.intact
              N [] (Some Sample.on_message) None None None HN)
    as [H0 [[WN HWN] [HA [HB Hhost]]]].
  destruct (@carried_identity_repeats Sample.engine Sample.inbox
              Sample.intact _ _ O N _ WN H0 HWN ltac:(by rewrite HN))
    as [Hid0 [Hsame [Hgo Hsend]]].
  eexists _, _, WN, _. split; [reflexivity|]. split; [exact H0|].
  split; [exact HWN|]. split; [exact Hid0|].
  split; [by rewrite Hsame|].
  destruct (Hgo ltac:(rewrite HN; done)) as [Hf0 HfN].
  split; [exact Hf0|]. split; [exact HfN|]. split; [exact HB|].
  split.
  - rewrite (proj1 (Hsend _ _)). unfold Send. rewrite Hid0.
    change (as_GoInt (C_int (Z.of_nat O))) with 0.
    unfold recvCb. rewrite HA. cbn [cb]. unfold Sample.on_message.
    cbn [ended obind]. reflexivity.
  - cbn [host set_host]. exact (f_equal (cons "hi") Hhost).
Defined.

(** C8 on three registrations: the second sync registration is the one
    [worker_send_sync] calls, so the reply is the echo and not the error
    text that the first handler's number would have given. *)
Lemma last_registration_wins_witness :
  ∃ w',
    register_all [@RegisterSync Sample.engine Sample.FortyTwo;
                  @RegisterAsync Sample.engine Sample.Forwarder;
                  @RegisterSync Sample.engine Sample.Echo] (worker_new 0)
    = Ok w'
    ∧ recv w' = Some Sample.Forwarder
    ∧ recv_sync_handler w' = Some Sample.Echo
    ∧ (∃ w'',
         worker_send_sync w' "ping" Sample.start
         = Ok (Released "ping", w'', Sample.start)
         ∧ entered (isolate w'') = [EnterCall Sample.Echo "ping"])
    ∧ (∃ w'' g',
         worker_send w' "ping" Sample.fresh.2 = Ok (0, w'', g')
         ∧ host g' = ["ping"]).
Proof.
  destruct (proj2 (proj2 (@last_registration_wins Sample.engine Sample.inbox))
              [@RegisterSync Sample.engine Sample.FortyTwo;
               @RegisterAsync Sample.engine Sample.Forwarder;
               @RegisterSync Sample.engine Sample.Echo] (worker_new 0))
    as [w' [Hreg [_ [Hrecv [Hsync [Hsend [Hsendsync [_ Hcall]]]]]]]].
  exists w'. split; [exact Hreg|]. split; [exact Hrecv|].
  split; [exact Hsync|].
  injection Hreg as <-. split.
  - eexists. split.
    + etrans; [exact (Hsendsync "ping" Sample.start)|reflexivity].
    + reflexivity.
  - eexists _, _. split.
    + etrans; [exact (Hsend "ping" Sample.fresh.2)|reflexivity].
    + reflexivity.
Defined.



(** C10 on the first Worker of a process, after its finalizer has run. *)
Lemma dispatch_without_entry_crashes_witness :
  callbacksMap Sample.fresh.2 !! 0
    = Some {| cb := Some Sample.on_message;
              syncCB := Some Sample.on_request |}
  ∧ ∃ W2 g2,
      finalize Sample.fresh.1 Sample.fresh.2 = Ok (W2, g2)
      ∧ callbacksMap g2 !! 0 = None
      ∧ recvCb "late" 0 g2 = Crash NilPointerDereference
      ∧ recvSyncCb "late" 0 g2 = Crash NilPointerDereference
      ∧ exec (CallSend (VString "late") (Done tt (Returned VUndefined)))
          (cWorker Sample.fresh.1) g2
        = Crash NilPointerDereference.
Proof.
  destruct (proj2 (proj2 dispatch_without_entry_crashes)
              (Some Sample.on_message) (Some Sample.on_request) Sample.start)
    as [Hin [W2 [g2 [Hfin [Hout Hcrash]]]]]; [simpl; lia|].
  split; [exact Hin|]. exists W2, g2. split; [exact Hfin|].
  split; [exact Hout|]. split; [exact (proj1 (Hcrash "late"))|].
  split; [exact (proj2 (Hcrash "late"))|].
  exact (proj1 (proj1 (proj2 dispatch_without_entry_crashes)
                  "late" (Done tt (Returned VUndefined))
                  (λ _, Done tt (Returned VUndefined))
                  (cWorker Sample.fresh.1) g2 Hout)).
Defined.

(** ** Runs of the rest of the bridge *)

(** X2 on a heap whose limit is above 2^31: the limit is reported as a
    negative number, the size in use as it is. *)
Lemma heap_statistics_are_truncated_witness :
  MallocedMemory (Worker_GetHeapStatistics Run.busy_heap) = 0
  ∧ UsedHeapSize (Worker_GetHeapStatistics Run.busy_heap) = 3145728
  ∧ HeapSizeLimit (Worker_GetHeapStatistics Run.busy_heap) = -2097152000.
Proof.
  destruct (heap_statistics_are_truncated Run.busy_heap) as [Hm Hall].
  split; [exact Hm|]. split.
  - destruct (Forall_lookup_1 _ _ 4%nat _ Hall eq_refl) as [_ [_ [Hexact _]]].
    apply Hexact; simpl; lia.
  - destruct (Forall_lookup_1 _ _ 5%nat _ Hall eq_refl) as [_ [_ [_ Hneg]]].
    rewrite Hneg; simpl; [reflexivity|lia].
Defined.

(** X4 on the C [int] with the longest decimal text. *)
Lemma scratch_buffer_suffices_witness :
  in_c_int (-2147483648)
  ∧ snprintf_i (-2147483648) = "-2147483648"
  ∧ (String.length (Itoa (-2147483648)) < scratchSize)%nat.
Proof.
  assert (in_c_int (-2147483648)) as Hn by (unfold in_c_int; lia).
  destruct (scratch_buffer_suffices (-2147483648) Hn) as [Hlen [Heq _]].
  split; [exact Hn|]. split; [|exact Hlen].
  rewrite Heq. reflexivity.
Defined.

(** X5 on a handler that forwards the message to Go and on one that
    throws. *)
Lemma Send_with_handler_witness :
  recv (cWorker Sample.ready.1) = Some Sample.Forwarder
  ∧ (∃ W' g',
       Worker_Send Sample.ready.1 "ping" Sample.ready.2 = Ok (None, W', g')
       ∧ host g' = ["ping"]
       ∧ last_exception (cWorker W') = last_exception (cWorker Sample.ready.1))
  ∧ recv (cWorker Run.throwing) = Some Sample.Thrower
  ∧ (∃ W',
       Worker_Send Run.throwing "ping" Sample.fresh.2
       = Ok (errors_New ("out of luck" +:+ nl), W', Sample.fresh.2)
       ∧ last_exception (cWorker W') = "out of luck" +:+ nl).
Proof.
  split; [reflexivity|]. split; [|split; [reflexivity|]].
  - pose proof (Send_with_handler Sample.ready.1 "ping" Sample.ready.2
                  Sample.Forwarder eq_refl) as H.
    destruct H as [Hsend [Hlast _]].
    eexists _, _. split; [exact Hsend|]. split; [reflexivity|exact Hlast].
  - pose proof (Send_with_handler Run.throwing "ping" Sample.fresh.2
                  Sample.Thrower eq_refl) as H.
    destruct H as [Hsend _].
    eexists. split; [exact Hsend|reflexivity].
Defined.

(** X6 on a sync handler that throws. *)
Lemma SendSync_throwing_handler_crashes_witness :
  recv_sync_handler (cWorker Run.throwing) = Some Sample.Thrower
  ∧ Worker_SendSync Sample.intact Run.throwing "ping" Sample.fresh.2
    = Crash EmptyHandleDereference.
Proof.
  split; [reflexivity|].
  apply (@SendSync_throwing_handler_crashes Sample.engine Sample.inbox
           Sample.intact Run.throwing "ping"
           Sample.fresh.2 Sample.Thrower Sample.bare
           (enter (@EnterCall Sample.engine Sample.Thrower "ping")
              (cWorker Run.throwing))
           Sample.fresh.2);
    reflexivity.
Defined.

(** X8 on a [Send] that fails and on a load that succeeds. *)
Lemma error_is_last_exception_witness :
  (∃ W',
     Worker_Send Sample.fresh.1 "ping" Sample.fresh.2
     = Ok (Some "$recv not called", W', Sample.fresh.2)
     ∧ worker_last_exception (cWorker W') = "$recv not called")
  ∧ (∃ o W' g',
       Worker_LoadWithOptions Sample.fresh.1 None "var y = 1" Sample.fresh.2
       = Ok (None, o, W', g')
       ∧ worker_last_exception (cWorker W')
         = worker_last_exception (cWorker Sample.fresh.1)).
Proof.
  destruct (error_is_last_exception Sample.fresh.1 Sample.fresh.2)
    as [Hload Hsend].
  split.
  - eexists. split; [reflexivity|].
    exact (Hsend "ping" (Some "$recv not called") _ _ eq_refl).
  - eexists _, _, _. split; [reflexivity|].
    exact (Hload None "var y = 1" None _ _ _ eq_refl).
Defined.

(** X9 on the first Worker of a process, on one whose callback panics and
    on one created with nil callbacks. *)
Lemma New_routes_messages_witness :
  0 ≤ workerIdSequence Sample.start < 2 ^ 31
  ∧ (∃ g',
       exec (CallSend (VString "hi") (Done tt (Returned VUndefined)))
         (cWorker Sample.fresh.1) Sample.fresh.2
       = Ok (Returned VUndefined, cWorker Sample.fresh.1, g')
       ∧ host g' = ["hi"])
  ∧ (∃ g',
       exec (CallSendSync (VString "hi")
               (λ ret, Done tt (Returned (VString ret))))
         (cWorker Sample.fresh.1) Sample.fresh.2
       = Ok (Returned (VString "re: hi"), cWorker Sample.fresh.1, g')
       ∧ host g' = ["hi"])
  ∧ exec (CallSend (VString "hi") (Done tt (Returned VUndefined)))
      (cWorker (New (Some (λ _ _, Panics "no")) None Sample.start).1)
      (New (Some (λ _ _, Panics "no")) None Sample.start).2
    = Crash (GoPanic "no")
  ∧ exec (CallSend (VString "hi") (Done tt (Returned VUndefined)))
      (cWorker (New None None Sample.start).1)
      (New None None Sample.start).2
    = Crash NilFuncCall.
Proof.
  assert (0 ≤ workerIdSequence Sample.start < 2 ^ 31) as Hseq
    by (simpl; lia).
  split; [exact Hseq|].
  destruct (@New_routes_messages Sample.engine Sample.inbox
              (Some Sample.on_message) (Some Sample.on_request) Sample.start
              (cWorker Sample.fresh.1) Sample.fresh.2 Hseq eq_refl eq_refl)
    as [Hsend [Hsync _]].
  destruct (@New_routes_messages Sample.engine Sample.inbox
              (Some (λ _ _, Panics "no")) None Sample.start
              (cWorker (New (Some (λ _ _, Panics "no")) None Sample.start).1)
              (New (Some (λ _ _, Panics "no")) None Sample.start).2
              Hseq eq_refl eq_refl)
    as [Hpanic _].
  destruct (@New_routes_messages Sample.engine Sample.inbox
              None None Sample.start
              (cWorker (New None None Sample.start).1)
              (New None None Sample.start).2 Hseq eq_refl eq_refl)
    as [_ [_ [Hnil _]]].
  split; [|split; [|split]].
  - eexists. split.
    + etrans; [exact (Hsend Sample.on_message "hi" _ eq_refl)|reflexivity].
    + reflexivity.
  - eexists. split.
    + etrans; [exact (Hsync Sample.on_request "hi" _ eq_refl)|reflexivity].
    + reflexivity.
  - exact (Hpanic _ "hi" _ eq_refl).
  - exact (Hnil eq_refl "hi" _).
Defined.

(** X10 on [$recv(42)], on [$sendSync(undefined)] and on a handler that
    calls [$recv(42)]. *)
Lemma bindings_assert_their_argument_witness :
  exec (CallRecv (VNumber 42) (Done tt (Returned VUndefined)))
    (cWorker Sample.fresh.1) Sample.fresh.2
  = Crash (AssertFailed "v->IsFunction()")
  ∧ exec (CallSendSync VUndefined (λ ret, Done tt (Returned (VString ret))))
      (cWorker Sample.fresh.1) Sample.fresh.2
    = Crash (AssertFailed "v->IsString()")
  ∧ @recv Run.careless (@cWorker Run.careless Run.sloppy) = Some tt
  ∧ @Worker_Send Run.careless Sample.inbox Run.sloppy "ping" Sample.start
    = Crash (AssertFailed "v->IsFunction()").
Proof.
  split; [|split; [|split; [reflexivity|]]].
  - destruct (@bindings_assert_their_argument Sample.engine Sample.inbox
                (VNumber 42) (cWorker Sample.fresh.1) Sample.fresh.2)
      as [Hfun _].
    exact (proj1 (Hfun eq_refl) _).
  - destruct (@bindings_assert_their_argument Sample.engine Sample.inbox
                VUndefined (cWorker Sample.fresh.1) Sample.fresh.2)
      as [_ [Hstr _]].
    exact (proj2 (Hstr eq_refl) _).
  - destruct (@bindings_assert_their_argument Run.careless Sample.inbox
                (VNumber 42) (@cWorker Run.careless Run.sloppy) Sample.start)
      as [_ [_ Hsend]].
    exact (Hsend Run.sloppy "ping" tt (Done tt (Returned VUndefined))
             eq_refl eq_refl eq_refl).
Defined.

(** X11 on the first Worker of a process. *)
Lemma New_then_finalize_restores_registry_witness :
  callbacksMap Sample.start !! workerIdSequence Sample.start = None
  ∧ callbacksMap Sample.fresh.2 !! 7 = callbacksMap Sample.start !! 7
  ∧ ∃ W2 g2,
      finalize Sample.fresh.1 Sample.fresh.2 = Ok (W2, g2)
      ∧ callbacksMap g2 = callbacksMap Sample.start
      ∧ finalize W2 g2 = Crash UseAfterFree.
Proof.
  split; [reflexivity|].
  destruct (@New_then_finalize_restores_registry Sample.engine Sample.inbox
              (Some Sample.on_message) (Some Sample.on_request) Sample.start
              eq_refl) as [Hother [_ [W2 [g2 [Hfin [Hback [_ Htwice]]]]]]].
  split; [apply Hother; simpl; lia|].
  exists W2, g2. split; [exact Hfin|]. split; [exact Hback|].
  exact (Htwice g2).
Defined.

(** X12 on a [Send] whose handler calls back into Go. *)
Lemma host_calls_keep_identities_witness :
  ∃ W' g',
    host_call Sample.intact (DoSend "ping") Sample.ready.1 Sample.ready.2
    = Ok (Sent None, W', g')
    ∧ host g' = ["ping"]
    ∧ finalizer_id W' = finalizer_id Sample.ready.1
    ∧ worker_id (cWorker W') = worker_id (cWorker Sample.ready.1)
    ∧ Send (VString "pong") (cWorker W') g'
      = Send (VString "pong") (cWorker Sample.ready.1) g'.
Proof.
  eexists _, _. split; [reflexivity|]. split; [reflexivity|].
  destruct (host_calls_keep_identities Sample.intact
              (DoSend "ping") Sample.ready.1 Sample.ready.2 _ _ _ eq_refl)
    as [Hf [Hw Hsend]].
  split; [exact Hf|]. split; [exact Hw|].
  exact (proj1 (Hsend (VString "pong") _)).
Defined.


(** X14 on three names. *)
Lemma script_names_are_numbered_and_distinct_witness :
  (draw_script_names 3 Sample.start).1 !! 2%nat = Some "VM2"
  ∧ NoDup (draw_script_names 3 Sample.start).1
  ∧ length (draw_script_names 3 Sample.start).1 = 3%nat.
Proof.
  destruct (@script_names_are_numbered_and_distinct Sample.inbox 3 [])
    as [Hith [Hdup [_ Hlen]]].
  split; [|split; [|exact Hlen]].
  - apply (Hith 2%nat); [lia|simpl; lia].
  - apply Hdup. simpl. lia.
Defined.


(** X16 on the third Worker of that process. *)
Lemma live_worker_is_always_routable_witness :
  ∃ W,
    workers (run_process Sample.intact Run.history (boot [])) !! 2%nat
    = Some (Some W)
    ∧ worker_id (cWorker W) = 2
    ∧ is_Some (callbacksMap
                 (go (run_process Sample.intact Run.history (boot [])))
                 !! worker_id (cWorker W))
    ∧ recvSyncCb "ping" (worker_id (cWorker W))
        (go (run_process Sample.intact Run.history (boot [])))
      ≠ Crash NilPointerDereference.
Proof.
  assert (Z.of_nat (length (issued (run_process Sample.intact Run.history
                                      (boot ([] : Sample.inbox))))) ≤ 2 ^ 31)
    as Hlen by (vm_compute; discriminate).
  eexists. split; [reflexivity|].
  pose proof (live_worker_is_always_routable Sample.intact Run.history []
                2%nat _ Hlen eq_refl) as H.
  destruct H as [Hw [_ [Hentry [_ Hsync]]]].
  split; [exact Hw|]. split; [exact Hentry|exact (Hsync "ping")].
Defined.
